(** * Nearest-neighbour matching of L3/06_nearest-neighbor-faster.ipynb

    A shallow embedding of the two functions of the notebook,
    [get_nearest] and [nearest_neighbor], and of the parts of numpy,
    pandas and scikit-learn they call.

    Conventions of the embedding.
    - A float64 is a real number of [R]: rounding is not modelled, so
      every statement is about the exact values of the formulas the code
      evaluates, and neither are the values a float64 has and a real
      number has not: an overflow to infinity, which the index rejects,
      and NaN, which the square root gives where rounding has made its
      argument negative.  Comparisons of distances are decided with
      [Rle_dec].
    - A Python exception is the name of its class.
    - GeoDataFrames are mutable Python objects: they live in a store and
      are passed around by reference.
    - scikit-learn's [BallTree] is an external library.  It is modelled
      by its documented contract: the checks its constructor and its
      [query] method make on their arguments, the haversine metric of
      [sklearn.metrics.DistanceMetric], and a query result that lists,
      for each query row, the [k] nearest rows of the tree by ascending
      distance.  The partitioning of the tree is an optimisation with no
      effect on the result ("changing leaf_size will not affect the
      results of a query") and is not modelled.  Among candidates at
      equal distances, which the library orders in a way it does not
      document, the model lists the lower position first. *)

From Stdlib Require Import Reals Lra ZArith List String Permutation Sorted.
From stdpp Require Import gmap.
Import ListNotations.

(** ** Outcomes of a Python call *)

Definition exn := string.

Definition ValueError : exn := "ValueError"%string.
Definition IndexError : exn := "IndexError"%string.
Definition KeyError : exn := "KeyError"%string.

(** The two error classes the specification names for the matcher. *)
Definition EmptyCandidateSetError : exn := "EmptyCandidateSetError"%string.
Definition InvalidKError : exn := "InvalidKError"%string.

(** A call returns a value, raises an exception, or is outside what the
    documentation of the called library defines ([Unspecified]). *)
Inductive outcome (T : Type) : Type :=
| Ok (v : T)
| Raise (e : exn)
| Unspecified.
Arguments Ok {T} v.
Arguments Raise {T} e.
Arguments Unspecified {T}.

Definition obind {T U : Type} (c : outcome T) (k : T -> outcome U) : outcome U :=
  match c with
  | Ok v => k v
  | Raise e => Raise e
  | Unspecified => Unspecified
  end.

Notation "'try' x <- c ; k" := (obind c (fun x => k))
  (at level 10, x name, c at level 100, k at level 200).

(** ** numpy arrays of coordinate pairs *)

(** [np.array(list_of_pairs)]: an empty list gives the one-dimensional
    array of shape (0,), a list of N > 0 pairs the array of shape (N, 2). *)
Inductive ndarray : Type :=
| Arr1 (items : list R)
| Arr2 (rows : list (R * R)).

Definition np_array (l : list (R * R)) : ndarray :=
  match l with
  | [] => Arr1 []
  | _ :: _ => Arr2 l
  end.

(** [sklearn.utils.check_array] with its defaults, as the tree calls it:
    a one-dimensional array is rejected ("Expected 2D array, got 1D array
    instead"), and so is an array with no row ("Found array with 0
    sample(s)"). *)
Definition check_array (X : ndarray) : outcome (list (R * R)) :=
  match X with
  | Arr1 _ => Raise ValueError
  | Arr2 [] => Raise ValueError
  | Arr2 rows => Ok rows
  end.

(** [m.transpose()] of a two-dimensional array given by its rows; the
    number of columns is read off the first row. *)
Definition transpose {T : Type} (d : T) (m : list (list T)) : list (list T) :=
  match m with
  | [] => []
  | r :: _ => map (fun j => map (fun row => nth j row d) m) (seq 0 (length r))
  end.

(** [a[0]] on the first axis. *)
Definition first_axis {T : Type} (m : list T) : outcome T :=
  match m with
  | [] => Raise IndexError
  | r :: _ => Ok r
  end.

(** ** The haversine metric of scikit-learn *)

(** [HaversineDistance.rdist] and [.dist]: the FIRST column of a row is
    the latitude and the second the longitude, both in radians. *)
Definition haversine_rdist (x1 x2 : R * R) : R :=
  let sin_0 := sin (/ 2 * (fst x1 - fst x2)) in
  let sin_1 := sin (/ 2 * (snd x1 - snd x2)) in
  (sin_0 * sin_0 + cos (fst x1) * cos (fst x2) * sin_1 * sin_1)%R.

Definition haversine_dist (x1 x2 : R * R) : R :=
  (2 * asin (sqrt (haversine_rdist x1 x2)))%R.

(** ** BallTree *)

Record BallTree : Type := mkBallTree {
  data : list (R * R);
  leaf_size : Z;
  dist_metric : R * R -> R * R -> R
}.

(** [BallTree(X, leaf_size, metric)].  Only the metric the notebook uses
    is modelled. *)
Definition BallTree_new (X : ndarray) (leaf : Z) (metric : string) : outcome BallTree :=
  try rows <- check_array X;
  if String.eqb metric "haversine"%string
  then Ok (mkBallTree rows leaf haversine_dist)
  else Unspecified.

(** Neighbours of one query row: the rows of the tree paired with their
    position, ordered by ascending distance (insertion keeps the lower
    position first among equal distances). *)
Definition dist_leb (a b : R * nat) : bool :=
  if Rle_dec (fst a) (fst b) then true else false.

Fixpoint insert_by_dist (a : R * nat) (l : list (R * nat)) : list (R * nat) :=
  match l with
  | [] => [a]
  | b :: l' => if dist_leb a b then a :: b :: l' else b :: insert_by_dist a l'
  end.

Definition sort_by_dist (l : list (R * nat)) : list (R * nat) :=
  fold_right insert_by_dist [] l.

Definition neighbors (tree : BallTree) (q : R * R) : list (R * nat) :=
  sort_by_dist
    (combine (map (dist_metric tree q) (data tree)) (seq 0 (length (data tree)))).

(** [tree.query(X, k)]: arrays of shape (len X, k) of distances and of
    positions.  The library rejects [k] above the number of rows of the
    tree ("k must be less than or equal to the number of training
    points"); it makes no check of [k < 1]. *)
Definition query (tree : BallTree) (X : ndarray) (k : Z)
  : outcome (list (list R) * list (list nat)) :=
  try rows <- check_array X;
  if (Z.of_nat (length (data tree)) <? k)%Z then Raise ValueError
  else if (k <? 1)%Z then Unspecified
  else
    let nn := map (fun q => firstn (Z.to_nat k) (neighbors tree q)) rows in
    Ok (map (map fst) nn, map (map snd) nn).

(** ** get_nearest (lines 124-143) *)

Definition get_nearest (src_points candidates : ndarray) (k_neighbors : Z)
  : outcome (list nat * list R) :=
  (* tree = BallTree(candidates, leaf_size=15, metric='haversine') *)
  try tree <- BallTree_new candidates 15 "haversine"%string;
  (* distances, indices = tree.query(src_points, k=k_neighbors) *)
  try found <- query tree src_points k_neighbors;
  let '(distances, indices) := found in
  let distances := transpose 0%R distances in
  let indices := transpose 0%nat indices in
  (* closest = indices[0]; closest_dist = distances[0] *)
  try closest <- first_axis indices;
  try closest_dist <- first_axis distances;
  Ok (closest, closest_dist).

(** ** Points and GeoDataFrames *)

(** A shapely [Point] in WGS84 degrees: [x] is the longitude, [y] the
    latitude. *)
Module Point.
Record t : Type := mk { x : R; y : R }.
End Point.

(** A row of a GeoDataFrame: the geometry column, the 'distance' column
    when the frame has one, and the remaining columns. *)
Record Row (A : Type) : Type := mkRow {
  geometry : Point.t;
  attrs : A;
  distance : option R
}.
Arguments mkRow {A} geometry attrs distance.
Arguments geometry {A} r.
Arguments attrs {A} r.
Arguments distance {A} r.

Definition loc := positive.

Section Frames.
Context {A : Type}.

(** A frame is the list of its rows, each under its index label. *)
Abbreviation frame := (list (Z * Row A)).
Abbreviation store := (gmap loc (list (Z * Row A))).

(** Computations on the store of frame objects. *)
Definition M (T : Type) : Type := store -> outcome T * store.

Definition ret {T : Type} (v : T) : M T := fun s => (Ok v, s).

Definition bind {T U : Type} (c : M T) (k : T -> M U) : M U :=
  fun s =>
    match c s with
    | (Ok v, s') => k v s'
    | (Raise e, s') => (Raise e, s')
    | (Unspecified, s') => (Unspecified, s')
    end.

Definition lift {T : Type} (o : outcome T) : M T := fun s => (o, s).

Notation "'do' x <- c ; k" := (bind c (fun x => k))
  (at level 10, x name, c at level 100, k at level 200).

(** A new object is stored at a location no object occupies. *)
Definition new_object (df : frame) : M loc :=
  fun s => let l := fresh (dom s) in (Ok l, <[l := df]> s).

Definition deref (l : loc) : M frame :=
  fun s =>
    match s !! l with
    | Some df => (Ok df, s)
    | None => (Unspecified, s)
    end.

(** [df.copy()] *)
Definition copy (l : loc) : M loc :=
  do df <- deref l;
  new_object df.

(** The index 0, 1, 2, ... over the rows of a frame. *)
Definition range_index (df : frame) : frame :=
  combine (map Z.of_nat (seq 0 (length df))) (map snd df).

(** [df.reset_index(drop=True)]: a new frame under the index 0, 1, 2, ... *)
Definition reset_index (l : loc) : M loc :=
  do df <- deref l;
  new_object (range_index df).

(** [df[geom_col]]: the geometry column. *)
Definition geometries (df : frame) : list Point.t :=
  map (fun r => geometry (snd r)) df.

Fixpoint label_lookup (df : frame) (label : Z) : option (Z * Row A) :=
  match df with
  | [] => None
  | r :: df' => if (fst r =? label)%Z then Some r else label_lookup df' label
  end.

Fixpoint take_labels (df : frame) (labels : list Z) : outcome frame :=
  match labels with
  | [] => Ok []
  | lbl :: labels' =>
      match label_lookup df lbl with
      | None => Raise KeyError
      | Some r => try rest <- take_labels df labels'; Ok (r :: rest)
      end
  end.

(** [df.loc[labels]]: a new frame with the row of each label, in the
    order of [labels]; a label the index lacks raises KeyError.  The
    notebook applies it to a frame whose index was just reset, so every
    label occurs once. *)
Definition loc_labels (l : loc) (labels : list nat) : M loc :=
  do df <- deref l;
  do picked <- lift (take_labels df (map Z.of_nat labels));
  new_object picked.

(** The rows of [df] with the column 'distance' set to [values]. *)
Definition assign_distance (df : frame) (values : list R) : frame :=
  map (fun rv => (fst (fst rv),
                  mkRow (geometry (snd (fst rv))) (attrs (snd (fst rv))) (Some (snd rv))))
      (combine df values).

(** [df['distance'] = values]: in place; pandas refuses values whose
    length is not the number of rows. *)
Definition set_distance (l : loc) (values : list R) : M unit :=
  do df <- deref l;
  if Nat.eqb (length values) (length df)
  then fun s => (Ok tt, <[l := assign_distance df values]> s)
  else lift (Raise ValueError).

(** ** nearest_neighbor (lines 146-182) *)

Definition nearest_neighbor (left_gdf right_gdf : loc) (return_dist : bool) : M loc :=
  (* right = right_gdf.copy().reset_index(drop=True) *)
  do right_copy <- copy right_gdf;
  do right <- reset_index right_copy;
  (* left_radians = np.array(left_gdf[left_geom_col].apply(
       lambda geom: (geom.x * np.pi / 180, geom.y * np.pi / 180)).to_list()) *)
  do left_df <- deref left_gdf;
  let left_radians :=
    np_array (map (fun geom => (Point.x geom * PI / 180, Point.y geom * PI / 180)%R)
                  (geometries left_df)) in
  (* right_radians: the same from right[right_geom_col] *)
  do right_df <- deref right;
  let right_radians :=
    np_array (map (fun geom => (Point.x geom * PI / 180, Point.y geom * PI / 180)%R)
                  (geometries right_df)) in
  (* closest, dist = get_nearest(src_points=left_radians, candidates=right_radians) *)
  do found <- lift (get_nearest left_radians right_radians 1);
  let '(closest, dist) := found in
  (* closest_points = right.loc[closest] *)
  do closest_points <- loc_labels right closest;
  (* closest_points = closest_points.reset_index(drop=True) *)
  do closest_points <- reset_index closest_points;
  (* if return_dist: closest_points['distance'] = dist * earth_radius *)
  do _ <- (if return_dist
           then
             let earth_radius := 6371000%R in
             set_distance closest_points (map (fun d => (d * earth_radius)%R) dist)
           else ret tt);
  ret closest_points.

(** What the caller sees of a call that returns a frame: the content of
    the returned frame, or the exception. *)
Definition result_of (r : outcome loc * store) : outcome frame :=
  match r with
  | (Ok l, s) =>
      match s !! l with
      | Some df => Ok df
      | None => Unspecified
      end
  | (Raise e, _) => Raise e
  | (Unspecified, _) => Unspecified
  end.

End Frames.

(** ** read_gdf_from_zip (lines 39-48) *)

(** A zip archive as [ZipFile(zip_fp)] presents it once opened: its
    members in the order of the archive, each a name and its bytes. *)
Definition ZipFile : Type := list (string * list Byte.byte).

(** [z.namelist()] *)
Definition namelist (z : ZipFile) : list string := map fst z.

(** [z.read(name)]: the bytes of the member of that name, KeyError when
    there is none.  The archive keeps one entry per name in its
    directory, the last member of that name. *)
Fixpoint zip_read (z : ZipFile) (name : string) : outcome (list Byte.byte) :=
  match z with
  | [] => Raise KeyError
  | member :: z' =>
      match zip_read z' name with
      | Ok content => Ok content
      | _ => if String.eqb (fst member) name then Ok (snd member) else Raise KeyError
      end
  end.

Section ReadZip.
Context {A : Type}.

(** [gpd.read_file] on the bytes of a file: the reader of the vector
    formats is an external library, a parameter here. *)
Variable read_file : list Byte.byte -> outcome (list (Z * Row A)).

Definition read_gdf_from_zip (z : ZipFile) : outcome (list (Z * Row A)) :=
  (* layer = z.namelist()[0] *)
  try layer <- first_axis (namelist z);
  (* data = gpd.read_file(io.BytesIO(z.read(layer))) *)
  try content <- zip_read z layer;
  read_file content.

End ReadZip.

(** ** Reference definitions the statements compare the code with *)

(** Degrees to radians, as the specification writes it. *)
Definition radians (degrees : R) : R := (degrees * PI / 180)%R.

(** The row the notebook's lambda builds for a point: longitude first. *)
Definition radian_row (geom : Point.t) : R * R :=
  (radians (Point.x geom), radians (Point.y geom)).

(** The great-circle distance between two positions on the unit sphere,
    by the haversine formula, from latitudes and longitudes in radians. *)
Definition great_circle (lat1 lon1 lat2 lon2 : R) : R :=
  (2 * asin (sqrt (sin ((lat1 - lat2) / 2) * sin ((lat1 - lat2) / 2)
                   + cos lat1 * cos lat2
                     * (sin ((lon1 - lon2) / 2) * sin ((lon1 - lon2) / 2)))))%R.

(** The great-circle distance between two WGS84 points, on the unit
    sphere. *)
Definition geo_dist (p q : Point.t) : R :=
  great_circle (radians (Point.y p)) (radians (Point.x p))
               (radians (Point.y q)) (radians (Point.x q)).

(** The same formula with the longitude of each point in the place of
    its latitude and the latitude in the place of its longitude. *)
Definition exchanged_dist (p q : Point.t) : R :=
  great_circle (radians (Point.x p)) (radians (Point.y p))
               (radians (Point.x q)) (radians (Point.y q)).

(** A brute-force scan: the position of the first candidate at the least
    distance [d]; a later candidate replaces the best one only when it
    is strictly nearer. *)
Fixpoint scan_from {T : Type} (d : T -> R) (C : list T) (i best : nat) (best_d : R) : nat :=
  match C with
  | [] => best
  | c :: C' =>
      if Rlt_dec (d c) best_d
      then scan_from d C' (S i) i (d c)
      else scan_from d C' (S i) best best_d
  end.

Definition brute_force_scan {T : Type} (d : T -> R) (C : list T) : option nat :=
  match C with
  | [] => None
  | c :: C' => Some (scan_from d C' 1 0 (d c))
  end.

(** [j] is the position in [ds] of the first least value, [dj]. *)
Definition first_min_at (ds : list R) (j : nat) (dj : R) : Prop :=
  ds !! j = Some dj /\
  forall i di, ds !! i = Some di -> (dj <= di)%R /\ (i < j -> (dj < di)%R).

Definition first_min (ds : list R) (j : nat) : Prop :=
  exists dj, first_min_at ds j dj.

(** The candidate row a brute-force scan under the metric of the tree
    selects for the query row [q], and its distance. *)
Definition scan_index (C : list (R * R)) (q : R * R) : nat :=
  match brute_force_scan (haversine_dist q) C with
  | Some j => j
  | None => 0
  end.

Definition scan_dist (C : list (R * R)) (q : R * R) : R :=
  haversine_dist q (nth (scan_index C q) C q).

(** The frame a call of [nearest_neighbor] returns for the query frame
    [L] and the candidate frame [Rt]: row [i] is the candidate row the
    scan selects for the point of row [i] of [L], under the label [i],
    with the distance in metres when it is requested. *)
Definition with_distance {A : Type} (return_dist : bool) (r : Row A) (meters : R) : Row A :=
  if return_dist then mkRow (geometry r) (attrs r) (Some meters) else r.

Definition matched_row {A : Type} (Rt : list (Z * Row A)) (return_dist : bool)
    (r0 : Row A) (q : Point.t) : Row A :=
  let C := map radian_row (geometries Rt) in
  with_distance return_dist
    (nth (scan_index C (radian_row q)) (map snd Rt) r0)
    (scan_dist C (radian_row q) * 6371000)%R.

Definition matched_frame {A : Type} (L Rt : list (Z * Row A)) (return_dist : bool)
  : list (Z * Row A) :=
  match Rt with
  | [] => []
  | r0 :: _ =>
      combine (map Z.of_nat (seq 0 (length L)))
              (map (matched_row Rt return_dist (snd r0)) (geometries L))
  end.

(** ** Sample frames *)

Definition sample_row (lon lat : R) (name : string) : Row string :=
  mkRow (Point.mk lon lat) name None.

(** One building on the equator at longitude 90. *)
Definition one_building : list (Z * Row string) :=
  [(7%Z, sample_row 90 0 "building"%string)].

(** Two stops: the north pole, 90 degrees of arc away from the building,
    and a stop on the equator 45 degrees away. *)
Definition two_stops : list (Z * Row string) :=
  [(10%Z, sample_row 90 90 "pole"%string); (20%Z, sample_row 45 0 "equator"%string)].

(** Five stops along the equator. *)
Definition five_stops : list (Z * Row string) :=
  [(0%Z, sample_row 0 0 "s0"%string); (1%Z, sample_row 1 0 "s1"%string);
   (2%Z, sample_row 2 0 "s2"%string); (3%Z, sample_row 3 0 "s3"%string);
   (4%Z, sample_row 4 0 "s4"%string)].

(** A store holding a query frame at location 1 and a candidate frame at
    location 2. *)
Definition two_frames (L Rt : list (Z * Row string)) : gmap loc (list (Z * Row string)) :=
  <[2%positive := Rt]> (<[1%positive := L]> ∅).

(** The order the neighbours of a query row are listed in. *)
Definition dist_le (a b : R * nat) : Prop := (fst a <= fst b)%R.

(** * Properties *)

(** ** Ordering the neighbours by distance *)

Lemma dist_leb_true a b : dist_leb a b = true <-> dist_le a b.
Proof.
  unfold dist_leb, dist_le. destruct (Rle_dec (fst a) (fst b)); split; auto; discriminate.
Qed.

Lemma dist_leb_false a b : dist_leb a b = false <-> (fst b < fst a)%R.
Proof.
  unfold dist_leb. destruct (Rle_dec (fst a) (fst b)); split; intros H; try discriminate; try lra.
Qed.

Lemma insert_by_dist_perm a l : Permutation (insert_by_dist a l) (a :: l).
Proof.
  induction l as [|b l IH]; simpl.
  - reflexivity.
  - destruct (dist_leb a b).
    + reflexivity.
    + rewrite IH. apply perm_swap.
Qed.

Lemma sort_by_dist_perm l : Permutation (sort_by_dist l) l.
Proof.
  induction l as [|a l IH]; simpl.
  - reflexivity.
  - rewrite insert_by_dist_perm. now constructor.
Qed.

Lemma insert_by_dist_sorted a l :
  StronglySorted dist_le l -> StronglySorted dist_le (insert_by_dist a l).
Proof.
  induction 1 as [|b l Hl IH Hb]; simpl.
  - repeat constructor.
  - destruct (dist_leb a b) eqn:E.
    + apply dist_leb_true in E. constructor.
      * now constructor.
      * constructor; [exact E|].
        rewrite (List.Forall_forall (dist_le b)) in Hb.
        rewrite (List.Forall_forall (dist_le a)). intros c Hc.
        specialize (Hb c Hc). unfold dist_le in *. lra.
    + apply dist_leb_false in E. constructor; [exact IH|].
      rewrite (List.Forall_forall (dist_le b)). intros c Hc.
      apply (Permutation_in _ (insert_by_dist_perm a l)) in Hc.
      destruct Hc as [<-|Hc].
      * unfold dist_le. lra.
      * rewrite (List.Forall_forall (dist_le b)) in Hb. now apply Hb.
Qed.

Lemma sort_by_dist_sorted l : StronglySorted dist_le (sort_by_dist l).
Proof.
  induction l as [|a l IH]; simpl.
  - constructor.
  - now apply insert_by_dist_sorted.
Qed.

Lemma firstn_sorted {T : Type} (le : T -> T -> Prop) k (l : list T) :
  StronglySorted le l -> StronglySorted le (firstn k l).
Proof.
  intros H. revert k. induction H as [|a l Hl IH Ha]; intros [|k]; simpl; try constructor.
  - apply IH.
  - rewrite (List.Forall_forall (le a)) in *. intros c Hc. apply Ha.
    rewrite <- (firstn_skipn k l). apply in_or_app. now left.
Qed.

Lemma sorted_app_le {T : Type} (le : T -> T -> Prop) (l1 l2 : list T) :
  StronglySorted le (l1 ++ l2) -> forall a b, In a l1 -> In b l2 -> le a b.
Proof.
  induction l1 as [|x l1 IH]; simpl; intros H a b Ha Hb; [tauto|].
  inversion H as [|? ? Hs Hf]; subst. destruct Ha as [<-|Ha].
  - rewrite (List.Forall_forall (le x)) in Hf. apply Hf, in_or_app. now right.
  - now apply IH.
Qed.

Lemma sorted_fst (l : list (R * nat)) : StronglySorted dist_le l -> StronglySorted Rle (map fst l).
Proof.
  induction 1 as [|a l Hl IH Ha]; simpl; constructor; [exact IH|].
  rewrite (List.Forall_forall (dist_le a)) in Ha. rewrite (List.Forall_forall (Rle (fst a))).
  intros d Hd. apply in_map_iff in Hd. destruct Hd as (b & <- & Hb). now apply Ha.
Qed.

(** ** The first neighbour is the result of the brute-force scan *)

Lemma first_min_at_unique ds j j' dj dj' :
  first_min_at ds j dj -> first_min_at ds j' dj' -> j = j' /\ dj = dj'.
Proof.
  intros [Hj Hmin] [Hj' Hmin'].
  destruct (Nat.lt_trichotomy j j') as [Hlt|[->|Hlt]].
  - destruct (Hmin' j dj Hj) as [_ Hs]. destruct (Hmin j' dj' Hj') as [Hle _].
    specialize (Hs Hlt). lra.
  - split; congruence.
  - destruct (Hmin j' dj' Hj') as [_ Hs]. destruct (Hmin' j dj Hj) as [Hle _].
    specialize (Hs Hlt). lra.
Qed.

Lemma sort_by_dist_head (ds : list R) (b : nat) :
  ds <> [] ->
  exists j dj tl,
    sort_by_dist (combine ds (seq b (length ds))) = (dj, b + j) :: tl /\
    first_min_at ds j dj.
Proof.
  revert b. induction ds as [|d ds IH]; intros b Hne; [congruence|].
  destruct ds as [|d' ds'].
  - exists 0, d, []. simpl. rewrite Nat.add_0_r. split; [reflexivity|].
    split; [reflexivity|]. intros [|i] di Hi; simpl in Hi; [|discriminate].
    injection Hi as <-. split; [lra|lia].
  - destruct (IH (S b)) as (j & dj & tl & Hs & Hj & Hmin); [discriminate|].
    change (sort_by_dist (combine (d :: d' :: ds') (seq b (length (d :: d' :: ds')))))
      with (insert_by_dist (d, b) (sort_by_dist (combine (d' :: ds') (seq (S b) (length (d' :: ds')))))).
    remember (S b + j) as m eqn:Em. rewrite Hs. cbn [insert_by_dist].
    destruct (dist_leb (d, b) (dj, m)) eqn:E.
    + apply dist_leb_true in E. unfold dist_le in E. simpl in E.
      exists 0, d, ((dj, m) :: tl). rewrite Nat.add_0_r. split; [reflexivity|].
      split; [reflexivity|]. intros [|i] di Hi.
      * injection Hi as <-. split; [lra|lia].
      * destruct (Hmin i di Hi) as [Hle _]. split; [lra|lia].
    + apply dist_leb_false in E. simpl in E.
      exists (S j), dj, (insert_by_dist (d, b) tl).
      replace (b + S j) with m by lia. split; [reflexivity|].
      split; [exact Hj|]. intros [|i] di Hi.
      * injection Hi as <-. split; [lra|intros _; lra].
      * destruct (Hmin i di Hi) as [Hle Hlt]. split; [exact Hle|].
        intros Hlt'. apply Hlt. lia.
Qed.

Lemma scan_from_first_min {T : Type} (d : T -> R) (C pre : list T) (best : nat) (best_d : R) :
  first_min_at (map d pre) best best_d ->
  exists dj, first_min_at (map d (pre ++ C)) (scan_from d C (length pre) best best_d) dj.
Proof.
  revert pre best best_d. induction C as [|c C IH]; intros pre best best_d [Hb Hmin]; simpl.
  - rewrite app_nil_r. exists best_d. now split.
  - assert (Hlen : best < length pre).
    { apply lookup_lt_Some in Hb. now rewrite length_map in Hb. }
    replace (pre ++ c :: C) with ((pre ++ [c]) ++ C) by (now rewrite <- app_assoc).
    replace (S (length pre)) with (length (pre ++ [c])) by (rewrite length_app; simpl; lia).
    destruct (Rlt_dec (d c) best_d) as [Hlt|Hge].
    + apply IH. rewrite map_app. split.
      * rewrite lookup_app_r by (rewrite length_map; lia).
        now rewrite length_map, Nat.sub_diag.
      * intros i di Hi. destruct (Nat.lt_ge_cases i (length (map d pre))) as [Hi'|Hi'].
        -- rewrite lookup_app_l in Hi by exact Hi'.
           destruct (Hmin i di Hi) as [Hle _]. split; [lra|intros _; lra].
        -- rewrite lookup_app_r in Hi by exact Hi'.
           destruct (i - length (map d pre)) as [|n] eqn:En; simpl in Hi; [|discriminate].
           injection Hi as <-. rewrite length_map in Hi'. split; [lra|lia].
    + apply IH. rewrite map_app. split.
      * rewrite lookup_app_l by (rewrite length_map; exact Hlen). exact Hb.
      * intros i di Hi. destruct (Nat.lt_ge_cases i (length (map d pre))) as [Hi'|Hi'].
        -- rewrite lookup_app_l in Hi by exact Hi'. now apply Hmin.
        -- rewrite lookup_app_r in Hi by exact Hi'.
           destruct (i - length (map d pre)) as [|n] eqn:En; simpl in Hi; [|discriminate].
           injection Hi as <-. rewrite length_map in Hi'. split; [lra|lia].
Qed.

Lemma brute_force_scan_first_min {T : Type} (d : T -> R) (C : list T) :
  C <> [] -> exists j, brute_force_scan d C = Some j /\ first_min (map d C) j.
Proof.
  destruct C as [|c C]; [congruence|]. intros _. simpl.
  eexists. split; [reflexivity|].
  apply (scan_from_first_min d C [c] 0 (d c)).
  split; [reflexivity|]. intros [|i] di Hi; simpl in Hi; [|discriminate].
  injection Hi as <-. split; [lra|lia].
Qed.

Lemma neighbors_head (tree : BallTree) (q : R * R) :
  data tree <> [] ->
  exists j c tl,
    neighbors tree q = (dist_metric tree q c, j) :: tl /\
    brute_force_scan (dist_metric tree q) (data tree) = Some j /\
    data tree !! j = Some c /\
    forall c', In c' (data tree) -> (dist_metric tree q c <= dist_metric tree q c')%R.
Proof.
  intros Hne. unfold neighbors.
  destruct (sort_by_dist_head (map (dist_metric tree q) (data tree)) 0) as (j & dj & tl & Hs & Hfm).
  { destruct (data tree); [congruence|discriminate]. }
  rewrite length_map in Hs. simpl in Hs.
  destruct (brute_force_scan_first_min (dist_metric tree q) (data tree) Hne) as (j' & Hscan & dj' & Hfm').
  destruct (first_min_at_unique _ _ _ _ _ Hfm Hfm') as [<- <-].
  destruct Hfm as [Hj Hmin]. rewrite list_lookup_fmap in Hj.
  destruct (data tree !! j) as [c|] eqn:Hc; [|discriminate]. injection Hj as <-.
  exists j, c, tl. repeat split; try assumption.
  intros c' Hin. apply list_elem_of_In, list_elem_of_lookup in Hin. destruct Hin as [i Hi].
  destruct (Hmin i (dist_metric tree q c')) as [Hle _]; [|exact Hle].
  now rewrite list_lookup_fmap, Hi.
Qed.

(** ** The k nearest neighbours of a query row *)

Lemma neighbors_perm (tree : BallTree) (q : R * R) :
  Permutation (map snd (neighbors tree q)) (seq 0 (length (data tree))).
Proof.
  unfold neighbors. rewrite sort_by_dist_perm.
  rewrite <- (length_map (dist_metric tree q) (data tree)).
  generalize (map (dist_metric tree q) (data tree)) as ds. intros ds.
  generalize 0 as b. induction ds as [|d ds IH]; intros b; simpl.
  - reflexivity.
  - constructor. apply IH.
Qed.

Lemma neighbors_length (tree : BallTree) (q : R * R) :
  length (neighbors tree q) = length (data tree).
Proof.
  rewrite <- (length_map snd), (Permutation_length (neighbors_perm tree q)).
  apply length_seq.
Qed.

Lemma combine_seq_lookup {T : Type} (f : T -> R) (C : list T) (b : nat) (d : R) (i : nat) :
  In (d, i) (combine (map f C) (seq b (length C))) ->
  exists c, C !! (i - b) = Some c /\ d = f c /\ b <= i.
Proof.
  revert b. induction C as [|c C IH]; intros b; simpl; [tauto|].
  intros [H|H].
  - injection H as <- <-. exists c. rewrite Nat.sub_diag. auto.
  - destruct (IH (S b) H) as (c' & Hc & Hd & Hb).
    exists c'. replace (i - b) with (S (i - S b)) by lia. auto with arith.
Qed.

Lemma neighbors_dist (tree : BallTree) (q : R * R) (d : R) (i : nat) :
  In (d, i) (neighbors tree q) ->
  exists c, data tree !! i = Some c /\ d = dist_metric tree q c.
Proof.
  intros H. unfold neighbors in H.
  apply (Permutation_in _ (sort_by_dist_perm _)) in H.
  destruct (combine_seq_lookup _ _ _ _ _ H) as (c & Hc & Hd & _).
  rewrite Nat.sub_0_r in Hc. eauto.
Qed.

Lemma firstn_NoDup {T : Type} (k : nat) (l : list T) : List.NoDup l -> List.NoDup (firstn k l).
Proof.
  intros H. rewrite <- (firstn_skipn k l) in H. now apply NoDup_app_remove_r in H.
Qed.

(** The [k] neighbours listed for a query row: [k] of them, by ascending
    distance, at distinct positions within the tree, each with the
    distance of the row at its position. *)
Lemma k_neighbors_spec (tree : BallTree) (q : R * R) (k : nat) :
  k <= length (data tree) ->
  let nn := firstn k (neighbors tree q) in
  length nn = k /\
  StronglySorted dist_le nn /\
  List.NoDup (map snd nn) /\
  (forall d i, In (d, i) nn ->
     i < length (data tree) /\
     exists c, data tree !! i = Some c /\ d = dist_metric tree q c).
Proof.
  intros Hk nn. subst nn. repeat split.
  - rewrite length_firstn, neighbors_length. lia.
  - apply firstn_sorted. unfold neighbors. apply sort_by_dist_sorted.
  - rewrite <- firstn_map. apply firstn_NoDup.
    apply (Permutation_NoDup (Permutation_sym (neighbors_perm tree q))), seq_NoDup.
  - destruct (neighbors_dist tree q d i) as (c & Hc & _).
    { rewrite <- (firstn_skipn k (neighbors tree q)). apply in_or_app. now left. }
    now apply lookup_lt_Some in Hc.
  - apply neighbors_dist. rewrite <- (firstn_skipn k (neighbors tree q)).
    apply in_or_app. now left.
Qed.

(** ** get_nearest *)

Lemma np_array_check (l : list (R * R)) : l <> [] -> check_array (np_array l) = Ok l.
Proof. destruct l; [congruence|reflexivity]. Qed.

Lemma transpose_first_axis {T : Type} (d : T) (r : list T) (rest : list (list T)) :
  r <> [] ->
  first_axis (transpose d (r :: rest)) = Ok (map (fun row => nth 0 row d) (r :: rest)).
Proof. destruct r; [congruence|reflexivity]. Qed.

Lemma head_nth0 {T : Type} (d : T) (l : list T) : l <> [] -> head l = Some (nth 0 l d).
Proof. destruct l; [congruence|reflexivity]. Qed.

Lemma first_column {X T : Type} (d : T) (f : X -> list T) (Q : list X) :
  Q <> [] -> (forall q, f q <> []) ->
  first_axis (transpose d (map f Q)) = Ok (map (fun q => nth 0 (f q) d) Q).
Proof.
  destruct Q as [|q0 Q]; [congruence|]. intros _ Hf.
  cbn [map]. rewrite transpose_first_axis by apply Hf.
  cbn [map]. now rewrite map_map.
Qed.

Lemma nearest_first (C : list (R * R)) (q : R * R) (n : nat) :
  C <> [] ->
  let nn := firstn (S n) (neighbors (mkBallTree C 15 haversine_dist) q) in
  nn <> [] /\
  nth 0 (map fst nn) 0%R = scan_dist C q /\
  nth 0 (map snd nn) 0 = scan_index C q.
Proof.
  intros HC nn. subst nn.
  destruct (neighbors_head (mkBallTree C 15 haversine_dist) q HC) as (j & c & tl & -> & Hscan & Hc & _).
  simpl in Hscan, Hc. unfold scan_dist, scan_index. rewrite Hscan.
  rewrite (nth_lookup_Some _ _ q _ Hc). simpl. repeat split. discriminate.
Qed.

Lemma get_nearest_ok (Q C : list (R * R)) (k : Z) :
  Q <> [] -> C <> [] -> (1 <= k <= Z.of_nat (length C))%Z ->
  get_nearest (np_array Q) (np_array C) k = Ok (map (scan_index C) Q, map (scan_dist C) Q).
Proof.
  intros HQ HC Hk. unfold get_nearest, BallTree_new.
  rewrite (np_array_check C HC). cbn [obind]. change (String.eqb _ _) with true. cbn iota.
  unfold query. rewrite (np_array_check Q HQ). cbn [obind data].
  destruct (Z.ltb_spec (Z.of_nat (length C)) k) as [?|_]; [lia|].
  destruct (Z.ltb_spec k 1) as [?|_]; [lia|].
  cbn [obind]. destruct (Z.to_nat k) as [|n] eqn:En; [lia|].
  rewrite !map_map.
  assert (Hne : forall q, firstn (S n) (neighbors (mkBallTree C 15 haversine_dist) q) <> []).
  { intros q. apply (nearest_first C q n HC). }
  rewrite !first_column; try assumption.
  - cbn [obind]. f_equal. f_equal; apply map_ext; intros q; apply (nearest_first C q n HC).
  - intros q E. apply (Hne q). now apply map_eq_nil in E.
  - intros q E. apply (Hne q). now apply map_eq_nil in E.
Qed.

Lemma query_ok (tree : BallTree) (Q : list (R * R)) (k : Z) :
  Q <> [] -> (1 <= k <= Z.of_nat (length (data tree)))%Z ->
  query tree (np_array Q) k
  = Ok (map (fun q => map fst (firstn (Z.to_nat k) (neighbors tree q))) Q,
        map (fun q => map snd (firstn (Z.to_nat k) (neighbors tree q))) Q).
Proof.
  intros HQ Hk. unfold query. rewrite (np_array_check Q HQ). cbn [obind].
  destruct (Z.ltb_spec (Z.of_nat (length (data tree))) k) as [?|_]; [lia|].
  destruct (Z.ltb_spec k 1) as [?|_]; [lia|].
  now rewrite !map_map.
Qed.

Lemma scan_index_lt (C : list (R * R)) (q : R * R) : C <> [] -> scan_index C q < length C.
Proof.
  intros HC. unfold scan_index.
  destruct (brute_force_scan_first_min (haversine_dist q) C HC) as (j & -> & dj & Hj & _).
  apply lookup_lt_Some in Hj. now rewrite length_map in Hj.
Qed.

(** ** Frames and the store *)

Section StoreFacts.
Context {A : Type}.
Implicit Types (s : gmap loc (list (Z * Row A))) (df : list (Z * Row A)).

Lemma fresh_unused s : s !! fresh (dom s) = None.
Proof. apply not_elem_of_dom, is_fresh. Qed.

Lemma bind_Ok {T U : Type} (c : M T) (k : T -> M U) s v s1 :
  c s = (Ok v, s1) -> bind c k s = k v s1.
Proof. unfold bind. now intros ->. Qed.

Lemma bind_Raise {T U : Type} (c : M T) (k : T -> M U) s e s1 :
  c s = (Raise e, s1) -> bind c k s = (@Raise U e, s1).
Proof. unfold bind. now intros ->. Qed.

Lemma lift_Ok {T : Type} (o : outcome T) (v : T) s : o = Ok v -> lift o s = (Ok v, s).
Proof. now intros ->. Qed.

Lemma deref_Ok l df s : s !! l = Some df -> deref l s = (Ok df, s).
Proof. unfold deref. now intros ->. Qed.

Lemma copy_Ok l df s :
  s !! l = Some df -> copy l s = (Ok (fresh (dom s)), <[fresh (dom s) := df]> s).
Proof. intros H. unfold copy. now rewrite (bind_Ok _ _ _ _ _ (deref_Ok _ _ _ H)). Qed.

Lemma reset_index_Ok l df s :
  s !! l = Some df ->
  reset_index l s = (Ok (fresh (dom s)), <[fresh (dom s) := range_index df]> s).
Proof. intros H. unfold reset_index. now rewrite (bind_Ok _ _ _ _ _ (deref_Ok _ _ _ H)). Qed.

Lemma loc_labels_Ok l df labels picked s :
  s !! l = Some df -> take_labels df (map Z.of_nat labels) = Ok picked ->
  loc_labels l labels s = (Ok (fresh (dom s)), <[fresh (dom s) := picked]> s).
Proof.
  intros H Ht. unfold loc_labels. rewrite (bind_Ok _ _ _ _ _ (deref_Ok _ _ _ H)).
  unfold lift, bind at 1. now rewrite Ht.
Qed.

Lemma set_distance_Ok l df values s :
  s !! l = Some df -> length values = length df ->
  set_distance l values s = (Ok tt, <[l := assign_distance df values]> s).
Proof.
  intros H Hlen. unfold set_distance. rewrite (bind_Ok _ _ _ _ _ (deref_Ok _ _ _ H)).
  now rewrite Hlen, Nat.eqb_refl.
Qed.

Lemma subseteq_fresh_insert s s' df :
  s ⊆ s' -> s ⊆ <[fresh (dom s') := df]> s'.
Proof.
  intros H. etransitivity; [exact H|]. apply insert_subseteq, fresh_unused.
Qed.

Lemma lookup_combine {X Y : Type} (l1 : list X) (l2 : list Y) (i : nat) (a : X) (b : Y) :
  l1 !! i = Some a -> l2 !! i = Some b -> combine l1 l2 !! i = Some (a, b).
Proof.
  revert l2 i. induction l1 as [|x l1 IH]; intros [|y l2] [|i] H1 H2; simpl in *;
    try discriminate.
  - congruence.
  - now apply IH.
Qed.

Lemma snd_combine_labels {X Y : Type} (labels : list X) (rows : list Y) :
  length labels = length rows -> map snd (combine labels rows) = rows.
Proof.
  revert labels. induction rows as [|r rows IH]; intros [|lb labels]; simpl; try discriminate; auto.
  intros H. f_equal. apply IH. lia.
Qed.

Lemma snd_range_index df : map snd (range_index df) = map snd df.
Proof.
  unfold range_index. apply snd_combine_labels. now rewrite !length_map, length_seq.
Qed.

Lemma length_range_index df : length (range_index df) = length df.
Proof. rewrite <- (length_map snd (range_index df)), snd_range_index. apply length_map. Qed.

Lemma geometries_range_index df : geometries (range_index df) = geometries df.
Proof.
  unfold geometries. rewrite <- (map_map snd geometry), snd_range_index. apply map_map.
Qed.

Lemma label_lookup_range (rows : list (Row A)) (b j : nat) (r : Row A) :
  rows !! j = Some r ->
  label_lookup (combine (map Z.of_nat (seq b (length rows))) rows) (Z.of_nat (b + j))
  = Some (Z.of_nat (b + j), r).
Proof.
  revert b j. induction rows as [|r0 rows IH]; intros b [|j] Hj; simpl in *; try discriminate.
  - injection Hj as ->. now rewrite Nat.add_0_r, Z.eqb_refl.
  - destruct (Z.eqb_spec (Z.of_nat b) (Z.of_nat (b + S j))) as [E|_]; [lia|].
    replace (b + S j) with (S b + j) by lia. now apply IH.
Qed.

Lemma take_labels_range df (r0 : Row A) (labels : list nat) :
  Forall (fun j => j < length df) labels ->
  take_labels (range_index df) (map Z.of_nat labels)
  = Ok (map (fun j => (Z.of_nat j, nth j (map snd df) r0)) labels).
Proof.
  induction 1 as [|j labels Hj _ IH]; [reflexivity|].
  cbn [map take_labels].
  destruct (lookup_lt_is_Some_2 (map snd df) j) as [r Hr]; [now rewrite length_map|].
  pose proof (label_lookup_range (map snd df) 0 j r Hr) as E.
  rewrite length_map in E. cbn [Nat.add] in E.
  unfold range_index at 1. rewrite E, IH. cbn [obind].
  now rewrite (nth_lookup_Some _ _ r0 _ Hr).
Qed.

Lemma assign_distance_combine {X : Type} (labels : list Z) (f : X -> Row A) (g : X -> R)
    (qs : list X) :
  assign_distance (combine labels (map f qs)) (map g qs)
  = combine labels (map (fun q => with_distance true (f q) (g q)) qs).
Proof.
  unfold assign_distance. revert labels.
  induction qs as [|q qs IH]; intros [|lb labels]; simpl; try reflexivity.
  f_equal. apply IH.
Qed.

End StoreFacts.

(** The first steps of a call of [nearest_neighbor] on two frames of the
    store: [right_gdf] is copied and re-indexed, both frames are read and
    their points converted; what is left is the call of [get_nearest] and
    the assembly of the result, in the store [s2]. *)
Ltac enter_call s left right L Rt HL HR :=
  unfold nearest_neighbor;
  rewrite (bind_Ok _ _ _ _ _ (copy_Ok right Rt s HR));
  set (s1 := <[fresh (dom s) := Rt]> s);
  assert (Hs1 : s ⊆ s1) by apply insert_subseteq, fresh_unused;
  rewrite (bind_Ok _ _ _ _ _ (reset_index_Ok (fresh (dom s)) Rt s1 (lookup_insert_eq _ _ _)));
  set (s2 := <[fresh (dom s1) := range_index Rt]> s1);
  assert (Hs2 : s ⊆ s2) by (now apply subseteq_fresh_insert);
  assert (HL2 : s2 !! left = Some L) by (eapply lookup_weaken; eassumption);
  rewrite (bind_Ok _ _ _ _ _ (deref_Ok left L s2 HL2));
  rewrite (bind_Ok _ _ _ _ _
             (deref_Ok (fresh (dom s1)) (range_index Rt) s2 (lookup_insert_eq _ _ _)));
  rewrite geometries_range_index;
  change (map (fun geom : Point.t => ((Point.x geom * PI / 180)%R, (Point.y geom * PI / 180)%R)))
    with (map radian_row).

Section Run.
Context {A : Type}.
Implicit Types (s : gmap loc (list (Z * Row A))) (L Rt : list (Z * Row A)).

Lemma radian_rows_ne L : L <> [] -> map radian_row (geometries L) <> [].
Proof. destruct L; [congruence|discriminate]. Qed.

Lemma matched_frame_cons L Rt r0 Rt' rd :
  Rt = r0 :: Rt' ->
  matched_frame L Rt rd
  = combine (map Z.of_nat (seq 0 (length L)))
            (map (matched_row Rt rd (snd r0)) (geometries L)).
Proof. now intros ->. Qed.

(** A call on two non-empty frames returns a new frame, the one the
    reference describes, and leaves every object of the store as it
    was. *)
Lemma nearest_neighbor_run s left right L Rt rd :
  s !! left = Some L -> s !! right = Some Rt -> L <> [] -> Rt <> [] ->
  exists l' s',
    nearest_neighbor left right rd s = (Ok l', s') /\
    s ⊆ s' /\ s !! l' = None /\ s' !! l' = Some (matched_frame L Rt rd).
Proof.
  intros HL HR HLne HRne. enter_call s left right L Rt HL HR.
  pose proof (get_nearest_ok (map radian_row (geometries L)) (map radian_row (geometries Rt)) 1
                (radian_rows_ne L HLne) (radian_rows_ne Rt HRne)) as Hg.
  rewrite (bind_Ok _ _ _ _ _ (lift_Ok _ _ s2 (Hg ltac:(rewrite !length_map; destruct Rt; [congruence|simpl length; lia])))).
  clear Hg. set (C := map radian_row (geometries Rt)).
  assert (ERt : exists r0 Rt', Rt = r0 :: Rt') by (destruct Rt; [congruence|eauto]).
  destruct ERt as (r0 & Rt' & ERt).
  assert (Hpick : take_labels (range_index Rt)
            (map Z.of_nat (map (scan_index C) (map radian_row (geometries L))))
          = Ok (map (fun j => (Z.of_nat j, nth j (map snd Rt) (snd r0)))
                    (map (scan_index C) (map radian_row (geometries L))))).
  { apply take_labels_range. rewrite List.Forall_forall. intros j Hj.
    apply in_map_iff in Hj. destruct Hj as (q & <- & _).
    replace (length Rt) with (length C) by (unfold C, geometries; now rewrite !length_map).
    apply scan_index_lt. unfold C. now apply radian_rows_ne. }
  rewrite (bind_Ok _ _ _ _ _ (loc_labels_Ok _ _ _ _ s2 (lookup_insert_eq _ _ _) Hpick)).
  set (picked := map (fun j : nat => (Z.of_nat j, nth j (map snd Rt) (snd r0)))
                     (map (scan_index C) (map radian_row (geometries L)))) in *.
  set (s3 := <[fresh (dom s2) := picked]> s2).
  assert (Hs3 : s ⊆ s3) by now apply subseteq_fresh_insert.
  rewrite (bind_Ok _ _ _ _ _ (reset_index_Ok _ picked s3 (lookup_insert_eq _ _ _))).
  set (l4 := fresh (dom s3)). set (s4 := <[l4 := range_index picked]> s3).
  assert (Hs4 : s ⊆ s4) by now apply subseteq_fresh_insert.
  assert (Hl4 : s !! l4 = None).
  { destruct (s !! l4) as [df|] eqn:E; [|reflexivity].
    apply (lookup_weaken _ _ _ _ E) in Hs3. unfold l4 in Hs3.
    now rewrite fresh_unused in Hs3. }
  assert (Hres : range_index picked = matched_frame L Rt false).
  { rewrite (matched_frame_cons L Rt r0 Rt' false ERt).
    unfold range_index, picked. rewrite !length_map, !map_map. unfold geometries at 1.
    rewrite length_map. reflexivity. }
  exists l4. destruct rd.
  - assert (Hlen : length (map (fun d => (d * 6371000)%R)
                      (map (scan_dist C) (map radian_row (geometries L))))
                   = length (range_index picked)).
    { rewrite length_range_index. unfold picked. now rewrite !length_map. }
    rewrite (bind_Ok _ _ _ _ _ (set_distance_Ok l4 _ _ s4 (lookup_insert_eq _ _ _) Hlen)).
    eexists. split; [reflexivity|]. split; [|split; [exact Hl4|]].
    + now apply insert_subseteq_r.
    + rewrite lookup_insert_eq. f_equal. rewrite Hres.
      rewrite !(matched_frame_cons L Rt r0 Rt' _ ERt), !map_map.
      apply (assign_distance_combine _
               (fun q => nth (scan_index C (radian_row q)) (map snd Rt) (snd r0))
               (fun q => (scan_dist C (radian_row q) * 6371000)%R)).
  - exists s4. unfold ret, bind. split; [reflexivity|]. split; [exact Hs4|]. split; [exact Hl4|].
    unfold s4. now rewrite lookup_insert_eq, Hres.
Qed.

End Run.

(** ** The haversine formula on the reals *)

Lemma arc_of_chord (t : R) :
  (0 <= t <= PI / 2)%R -> (2 * asin (sqrt (sin t * sin t)) = 2 * t)%R.
Proof.
  intros [H0 H1]. pose proof PI_RGT_0 as HPI.
  assert (Hs : (0 <= sin t)%R) by (apply sin_ge_0; lra).
  rewrite (sqrt_square _ Hs), asin_sin by lra. reflexivity.
Qed.

Lemma haversine_is_great_circle (lat1 lon1 lat2 lon2 : R) :
  haversine_dist (lat1, lon1) (lat2, lon2) = great_circle lat1 lon1 lat2 lon2.
Proof.
  unfold haversine_dist, haversine_rdist, great_circle. cbn [fst snd].
  replace (/ 2 * (lat1 - lat2))%R with ((lat1 - lat2) / 2)%R by lra.
  replace (/ 2 * (lon1 - lon2))%R with ((lon1 - lon2) / 2)%R by lra.
  do 3 f_equal. ring.
Qed.

(** The distance the index computes between two points is the
    great-circle formula with longitude and latitude exchanged. *)
Lemma haversine_radian_rows (p q : Point.t) :
  haversine_dist (radian_row p) (radian_row q) = exchanged_dist p q.
Proof. apply haversine_is_great_circle. Qed.

Lemma great_circle_same_lon (lat1 lat2 lon : R) :
  (0 <= lat1 - lat2 <= PI)%R -> great_circle lat1 lon lat2 lon = (lat1 - lat2)%R.
Proof.
  intros H. unfold great_circle.
  replace ((lon - lon) / 2)%R with 0%R by lra. rewrite sin_0.
  replace (sin ((lat1 - lat2) / 2) * sin ((lat1 - lat2) / 2)
           + cos lat1 * cos lat2 * (0 * 0))%R
    with (sin ((lat1 - lat2) / 2) * sin ((lat1 - lat2) / 2))%R by ring.
  rewrite arc_of_chord by lra. lra.
Qed.

Lemma great_circle_equator (lon1 lon2 : R) :
  (0 <= lon1 - lon2 <= PI)%R -> great_circle 0 lon1 0 lon2 = (lon1 - lon2)%R.
Proof.
  intros H. unfold great_circle.
  replace ((0 - 0) / 2)%R with 0%R by lra. rewrite sin_0, cos_0.
  replace (0 * 0 + 1 * 1 * (sin ((lon1 - lon2) / 2) * sin ((lon1 - lon2) / 2)))%R
    with (sin ((lon1 - lon2) / 2) * sin ((lon1 - lon2) / 2))%R by ring.
  rewrite arc_of_chord by lra. lra.
Qed.

Lemma great_circle_at_pole (lon1 lon2 : R) :
  great_circle (PI / 2) lon1 (PI / 2) lon2 = 0%R.
Proof.
  unfold great_circle.
  replace ((PI / 2 - PI / 2) / 2)%R with 0%R by lra. rewrite sin_0, cos_PI2.
  replace (0 * 0 + 0 * 0 * (sin ((lon1 - lon2) / 2) * sin ((lon1 - lon2) / 2)))%R
    with 0%R by ring.
  rewrite sqrt_0, asin_0. ring.
Qed.

Lemma exchanged_dist_equator (p q : Point.t) :
  Point.y p = 0%R -> Point.y q = 0%R -> exchanged_dist p q = geo_dist p q.
Proof.
  intros Hp Hq. unfold exchanged_dist, geo_dist, great_circle, radians.
  rewrite Hp, Hq.
  replace (0 * PI / 180)%R with 0%R by lra.
  replace ((0 - 0) / 2)%R with 0%R by lra. rewrite sin_0, cos_0.
  do 3 f_equal. ring.
Qed.

Lemma radians_90 : radians 90 = (PI / 2)%R.
Proof. unfold radians. lra. Qed.

Lemma radians_45 : radians 45 = (PI / 4)%R.
Proof. unfold radians. lra. Qed.

Lemma radians_0 : radians 0 = 0%R.
Proof. unfold radians. lra. Qed.

(** From the building of [one_building]: the index puts the pole stop at
    distance 0 and the equator stop at PI/4; on the sphere the pole stop
    is PI/2 away and the equator stop PI/4. *)
Lemma sample_exchanged_pole :
  exchanged_dist (Point.mk 90 0) (Point.mk 90 90) = 0%R.
Proof.
  unfold exchanged_dist. cbn [Point.x Point.y]. rewrite radians_90.
  apply great_circle_at_pole.
Qed.

Lemma sample_exchanged_equator :
  exchanged_dist (Point.mk 90 0) (Point.mk 45 0) = (PI / 4)%R.
Proof.
  unfold exchanged_dist. cbn [Point.x Point.y]. rewrite radians_90, radians_45, radians_0.
  pose proof PI_RGT_0. rewrite great_circle_same_lon by lra. lra.
Qed.

Lemma sample_geo_pole : geo_dist (Point.mk 90 0) (Point.mk 90 90) = (PI / 2)%R.
Proof.
  unfold geo_dist. cbn [Point.x Point.y]. rewrite radians_90, radians_0.
  pose proof PI_RGT_0 as HPI. unfold great_circle.
  replace ((PI / 2 - PI / 2) / 2)%R with 0%R by lra. rewrite sin_0, cos_0, cos_PI2.
  replace ((0 - PI / 2) / 2)%R with (- (PI / 4))%R by lra. rewrite sin_neg.
  replace (- sin (PI / 4) * - sin (PI / 4) + 1 * 0 * (0 * 0))%R
    with (sin (PI / 4) * sin (PI / 4))%R by ring.
  rewrite arc_of_chord by lra. lra.
Qed.

Lemma sample_geo_equator : geo_dist (Point.mk 90 0) (Point.mk 45 0) = (PI / 4)%R.
Proof.
  unfold geo_dist. cbn [Point.x Point.y]. rewrite radians_90, radians_45, radians_0.
  pose proof PI_RGT_0. rewrite great_circle_equator by lra. lra.
Qed.

(** ** Calls that fail *)

Lemma get_nearest_no_candidates (X : ndarray) (k : Z) :
  get_nearest X (np_array []) k = Raise ValueError.
Proof. reflexivity. Qed.

Lemma get_nearest_no_queries (C : list (R * R)) (k : Z) :
  get_nearest (np_array []) (np_array C) k = Raise ValueError.
Proof. destruct C; reflexivity. Qed.

Lemma query_k_too_large (tree : BallTree) (X : ndarray) (k : Z) :
  (Z.of_nat (length (data tree)) < k)%Z -> query tree X k = Raise ValueError.
Proof.
  intros Hk. unfold query. destruct (check_array X) as [rows|e|] eqn:E.
  - cbn [obind]. destruct (Z.ltb_spec (Z.of_nat (length (data tree))) k); [reflexivity|lia].
  - destruct X as [v|[|r rows]]; simpl in E; try discriminate; now injection E as <-.
  - destruct X as [v|[|r rows]]; simpl in E; discriminate.
Qed.

Lemma get_nearest_k_too_large (Q C : list (R * R)) (k : Z) :
  (Z.of_nat (length C) < k)%Z -> get_nearest (np_array Q) (np_array C) k = Raise ValueError.
Proof.
  intros Hk. destruct C as [|c C]; [reflexivity|].
  unfold get_nearest, BallTree_new. rewrite np_array_check by discriminate.
  cbn [obind]. change (String.eqb _ _) with true. cbn iota. cbn [obind].
  now rewrite query_k_too_large.
Qed.

Section Failures.
Context {A : Type}.
Implicit Types (s : gmap loc (list (Z * Row A))) (L Rt : list (Z * Row A)).

Lemma nearest_neighbor_prepare s left right L Rt rd :
  s !! left = Some L -> s !! right = Some Rt ->
  get_nearest (np_array (map radian_row (geometries L)))
              (np_array (map radian_row (geometries Rt))) 1 = Raise ValueError ->
  exists s', nearest_neighbor left right rd s = (Raise ValueError, s') /\ s ⊆ s'.
Proof.
  intros HL HR Hg. enter_call s left right L Rt HL HR.
  exists s2. split; [|exact Hs2].
  apply bind_Raise. unfold lift. now rewrite Hg.
Qed.

Lemma nearest_neighbor_no_candidates s left right L rd :
  s !! left = Some L -> s !! right = Some [] ->
  exists s', nearest_neighbor left right rd s = (Raise ValueError, s') /\ s ⊆ s'.
Proof.
  intros HL HR. apply (nearest_neighbor_prepare s left right L [] rd HL HR).
  apply get_nearest_no_candidates.
Qed.

Lemma nearest_neighbor_no_queries s left right Rt rd :
  s !! left = Some [] -> s !! right = Some Rt ->
  exists s', nearest_neighbor left right rd s = (Raise ValueError, s') /\ s ⊆ s'.
Proof.
  intros HL HR. apply (nearest_neighbor_prepare s left right [] Rt rd HL HR).
  apply get_nearest_no_queries.
Qed.

(** ** The rows of the returned frame *)

Lemma matched_frame_length L Rt rd : Rt <> [] -> length (matched_frame L Rt rd) = length L.
Proof.
  destruct Rt as [|r0 Rt]; [congruence|]. intros _. unfold matched_frame, geometries.
  rewrite length_combine, !length_map, length_seq. lia.
Qed.


Lemma matched_frame_rows L Rt rd r0 Rt' :
  Rt = r0 :: Rt' ->
  map snd (matched_frame L Rt rd) = map (matched_row Rt rd (snd r0)) (geometries L).
Proof.
  intros E. rewrite (matched_frame_cons L Rt r0 Rt' rd E).
  apply snd_combine_labels. unfold geometries. now rewrite !length_map, length_seq.
Qed.

(** Row [i] of the returned frame, for the point [q] of row [i] of the
    query frame: it is labelled [i] and holds the candidate row at the
    position the scan selects under the metric of the index. *)
Lemma matched_frame_lookup L Rt rd (i : nat) (q : Point.t) :
  Rt <> [] -> geometries L !! i = Some q ->
  exists j r,
    brute_force_scan (haversine_dist (radian_row q)) (map radian_row (geometries Rt)) = Some j /\
    map snd Rt !! j = Some r /\
    (forall c, In c (geometries Rt) ->
       (haversine_dist (radian_row q) (radian_row (geometry r))
        <= haversine_dist (radian_row q) (radian_row c))%R) /\
    matched_frame L Rt rd !! i
    = Some (Z.of_nat i,
            with_distance rd r
              (haversine_dist (radian_row q) (radian_row (geometry r)) * 6371000)%R).
Proof.
  intros HRt Hq.
  assert (ERt : exists r0 Rt', Rt = r0 :: Rt') by (destruct Rt; [congruence|eauto]).
  destruct ERt as (r0 & Rt' & ERt).
  set (C := map radian_row (geometries Rt)).
  assert (HC : C <> []) by (now apply radian_rows_ne).
  destruct (neighbors_head (mkBallTree C 15 haversine_dist) (radian_row q) HC)
    as (j & c & tl & _ & Hscan & Hc & Hmin).
  cbn [data dist_metric] in Hscan, Hc, Hmin.
  unfold C, geometries in Hc. rewrite map_map, list_lookup_fmap in Hc.
  destruct (Rt !! j) as [[lb r]|] eqn:Hr; [|discriminate].
  cbn in Hc. injection Hc as <-.
  assert (Hr' : map snd Rt !! j = Some r) by (now rewrite list_lookup_fmap, Hr).
  exists j, r. split; [exact Hscan|]. split; [exact Hr'|]. split.
  - intros c Hin. apply Hmin. unfold C. now apply in_map.
  - rewrite (matched_frame_cons L Rt r0 Rt' rd ERt).
    apply lookup_lt_Some in Hq as Hi. unfold geometries in Hi. rewrite length_map in Hi.
    assert (Hlab : map Z.of_nat (seq 0 (length L)) !! i = Some (Z.of_nat i)).
    { rewrite list_lookup_fmap, lookup_seq_lt by exact Hi. reflexivity. }
    assert (Hrow : map (matched_row Rt rd (snd r0)) (geometries L) !! i
                   = Some (matched_row Rt rd (snd r0) q)).
    { now rewrite list_lookup_fmap, Hq. }
    rewrite (lookup_combine _ _ i _ _ Hlab Hrow).
    unfold matched_row, scan_dist, scan_index. fold C. rewrite Hscan.
    rewrite (nth_lookup_Some _ _ (snd r0) _ Hr').
    assert (Hn : nth j C (radian_row q) = radian_row (geometry r)).
    { apply nth_lookup_Some. unfold C, geometries. now rewrite map_map, list_lookup_fmap, Hr. }
    rewrite Hn. reflexivity.
Qed.

End Failures.

(** ** What the caller sees *)

Section Results.
Context {A : Type}.
Implicit Types (s : gmap loc (list (Z * Row A))) (L Rt : list (Z * Row A)).

Lemma result_of_run s left right L Rt rd :
  s !! left = Some L -> s !! right = Some Rt -> L <> [] -> Rt <> [] ->
  result_of (nearest_neighbor left right rd s) = Ok (matched_frame L Rt rd).
Proof.
  intros HL HR HLne HRne.
  destruct (nearest_neighbor_run s left right L Rt rd HL HR HLne HRne)
    as (l' & s' & -> & _ & _ & Hl').
  unfold result_of. now rewrite Hl'.
Qed.

Lemma result_of_no_candidates s left right L rd :
  s !! left = Some L -> s !! right = Some [] ->
  result_of (nearest_neighbor left right rd s) = Raise ValueError.
Proof.
  intros HL HR.
  now destruct (nearest_neighbor_no_candidates s left right L rd HL HR) as (s' & -> & _).
Qed.

Lemma result_of_no_queries s left right Rt rd :
  s !! left = Some [] -> s !! right = Some Rt ->
  result_of (nearest_neighbor left right rd s) = Raise ValueError.
Proof.
  intros HL HR.
  now destruct (nearest_neighbor_no_queries s left right Rt rd HL HR) as (s' & -> & _).
Qed.

Lemma result_of_cases s left right L Rt rd :
  s !! left = Some L -> s !! right = Some Rt ->
  result_of (nearest_neighbor left right rd s)
  = match L, Rt with
    | [], _ | _, [] => Raise ValueError
    | _ :: _, _ :: _ => Ok (matched_frame L Rt rd)
    end.
Proof.
  intros HL HR. destruct L as [|r L'] eqn:EL.
  { now apply (result_of_no_queries s left right Rt). }
  destruct Rt as [|r' Rt'] eqn:ER.
  { now apply (result_of_no_candidates s left right (r :: L')). }
  now apply result_of_run.
Qed.

(** Whatever the two frames hold, a call changes no object of the
    store. *)
Lemma nearest_neighbor_frame s left right L Rt rd :
  s !! left = Some L -> s !! right = Some Rt ->
  s ⊆ snd (nearest_neighbor left right rd s).
Proof.
  intros HL HR.
  destruct L as [|r L'] eqn:EL.
  { now destruct (nearest_neighbor_no_queries s left right Rt rd HL HR) as (s' & -> & Hs). }
  destruct Rt as [|r' Rt'] eqn:ER.
  { now destruct (nearest_neighbor_no_candidates s left right _ rd HL HR) as (s' & -> & Hs). }
  now destruct (nearest_neighbor_run s left right _ _ rd HL HR ltac:(discriminate) ltac:(discriminate))
    as (l' & s' & -> & Hs & _).
Qed.

End Results.

Lemma two_frames_left (L Rt : list (Z * Row string)) : two_frames L Rt !! 1%positive = Some L.
Proof. unfold two_frames. now rewrite lookup_insert_ne, lookup_insert_eq. Qed.

Lemma two_frames_right (L Rt : list (Z * Row string)) : two_frames L Rt !! 2%positive = Some Rt.
Proof. unfold two_frames. now rewrite lookup_insert_eq. Qed.

Lemma sample_scan_index :
  scan_index (map radian_row (geometries two_stops)) (radian_row (Point.mk 90 0)) = 0.
Proof.
  unfold scan_index. cbn [two_stops geometries map snd geometry sample_row brute_force_scan scan_from].
  rewrite !haversine_radian_rows, sample_exchanged_pole, sample_exchanged_equator.
  pose proof PI_RGT_0. destruct (Rlt_dec (PI / 4) 0); [lra|reflexivity].
Qed.

Lemma sample_scan_dist :
  scan_dist (map radian_row (geometries two_stops)) (radian_row (Point.mk 90 0)) = 0%R.
Proof.
  unfold scan_dist. rewrite sample_scan_index.
  cbn [two_stops geometries map snd geometry sample_row nth].
  now rewrite haversine_radian_rows, sample_exchanged_pole.
Qed.

(** * The claims *)

(** C1 (the code departs from the claim).  A building on the equator at
    longitude 90 and two stops, the north pole and a stop on the equator
    at longitude 45.  The brute-force scan by great-circle distance
    selects the equator stop, position 1, which is PI/4 away while the
    pole is PI/2 away.  [get_nearest] selects position 0 and the call
    returns the row of the pole stop with the distance 0: the index
    measures the rows it is given with their longitude in the place of
    the latitude. *)
Theorem C1_match_is_not_the_great_circle_scan :
  get_nearest (np_array (map radian_row (geometries one_building)))
              (np_array (map radian_row (geometries two_stops))) 1
  = Ok ([0], [0%R]) /\
  result_of (nearest_neighbor 1%positive 2%positive true (two_frames one_building two_stops))
  = Ok [(0%Z, mkRow (Point.mk 90 90) "pole"%string (Some 0%R))] /\
  brute_force_scan (geo_dist (Point.mk 90 0)) (geometries two_stops) = Some 1 /\
  geo_dist (Point.mk 90 0) (Point.mk 45 0) = (PI / 4)%R /\
  geo_dist (Point.mk 90 0) (Point.mk 90 90) = (PI / 2)%R.
Proof.
  split.
  { rewrite get_nearest_ok; [|discriminate|discriminate|simpl; lia].
    change (geometries one_building) with [Point.mk 90 0]. cbn [map].
    now rewrite sample_scan_index, sample_scan_dist. }
  split; [|split; [|split; [apply sample_geo_equator|apply sample_geo_pole]]].
  - rewrite (result_of_run _ _ _ one_building two_stops true
               (two_frames_left _ _) (two_frames_right _ _)) by discriminate.
    rewrite (matched_frame_cons one_building two_stops _ _ true eq_refl).
    change (geometries one_building) with [Point.mk 90 0].
    cbn [map length seq combine]. unfold matched_row.
    rewrite sample_scan_index, sample_scan_dist.
    cbn [two_stops map snd nth with_distance geometry attrs sample_row].
    replace (0 * 6371000)%R with 0%R by lra. reflexivity.
  - cbn [two_stops geometries map snd geometry sample_row brute_force_scan scan_from].
    rewrite sample_geo_pole, sample_geo_equator.
    pose proof PI_RGT_0. destruct (Rlt_dec (PI / 4) (PI / 2)); [reflexivity|lra].
Qed.




(** C3 (counterexample to the claim as stated).  With an empty candidate
    frame the call fails with ValueError, not with
    EmptyCandidateSetError. *)
Lemma C3_empty_candidates_raise_ValueError :
  result_of (nearest_neighbor 1%positive 2%positive false (two_frames one_building []))
  = Raise ValueError /\
  result_of (nearest_neighbor 1%positive 2%positive false (two_frames one_building []))
  <> Raise EmptyCandidateSetError.
Proof.
  assert (H : result_of (nearest_neighbor 1%positive 2%positive false (two_frames one_building []))
              = Raise ValueError).
  { apply (result_of_no_candidates _ _ _ one_building); [apply two_frames_left|apply two_frames_right]. }
  split; [exact H|]. rewrite H. discriminate.
Qed.

(** C3 (amended).  For every query frame, a call with an empty candidate
    frame fails and returns no frame.  The failure is the ValueError the
    constructor of the index raises on the empty array of candidate rows:
    the notebook makes no check of its own beforehand.  No object of the
    store is changed. *)
Theorem C3_empty_candidates_fail {A : Type} (s : gmap loc (list (Z * Row A)))
    (left right : loc) (L : list (Z * Row A)) (rd : bool) :
  s !! left = Some L -> s !! right = Some [] ->
  result_of (nearest_neighbor left right rd s) = Raise ValueError /\
  BallTree_new (np_array (map radian_row (@geometries A []))) 15 "haversine"%string
  = Raise ValueError /\
  (forall X k, get_nearest X (np_array []) k = Raise ValueError) /\
  s ⊆ snd (nearest_neighbor left right rd s).
Proof.
  intros HL HR. split; [now apply (result_of_no_candidates s left right L)|].
  split; [reflexivity|]. split; [apply get_nearest_no_candidates|].
  now apply (nearest_neighbor_frame s left right L []).
Qed.

Lemma C3_witness :
  result_of (nearest_neighbor 1%positive 2%positive true (two_frames one_building []))
  = Raise ValueError.
Proof.
  exact (proj1 (C3_empty_candidates_fail (two_frames one_building []) 1%positive 2%positive
                  one_building true (two_frames_left _ _) (two_frames_right _ _))).
Defined.

(** C4 (counterexample to the claim as stated).  Three neighbours
    requested for one query row from five candidates: [get_nearest]
    returns one index for the query row, not three. *)
Lemma C4_three_of_five_returns_one_index :
  exists closest dist,
    get_nearest (np_array [radian_row (Point.mk 90 0)])
                (np_array (map radian_row (geometries five_stops))) 3
    = Ok (closest, dist) /\
    length closest = 1 /\ length closest <> 3.
Proof.
  eexists _, _. split.
  - apply get_nearest_ok; [discriminate|discriminate|simpl; lia].
  - split; [reflexivity|discriminate].
Qed.

(** C4 (amended).  For every non-empty set of query rows and every k
    with 1 <= k <= |candidates|, the query of the index lists for each
    query row k candidate positions, distinct and within bounds, with
    their distances in ascending order, and no candidate left out is
    nearer than a listed one.  [get_nearest] returns of these the first
    column only: one position and one distance per query row, the
    nearest candidate. *)
Theorem C4_k_nearest_and_what_is_returned (Q C : list (R * R)) (k : Z) :
  Q <> [] -> C <> [] -> (1 <= k <= Z.of_nat (length C))%Z ->
  exists distances indices closest closest_dist,
    BallTree_new (np_array C) 15 "haversine"%string = Ok (mkBallTree C 15 haversine_dist) /\
    query (mkBallTree C 15 haversine_dist) (np_array Q) k = Ok (distances, indices) /\
    get_nearest (np_array Q) (np_array C) k = Ok (closest, closest_dist) /\
    length closest = length Q /\ length closest_dist = length Q /\
    forall i q, Q !! i = Some q ->
      exists ds js,
        distances !! i = Some ds /\ indices !! i = Some js /\
        Z.of_nat (length js) = k /\
        List.NoDup js /\
        (forall j, In j js -> j < length C) /\
        ds = map (fun j => haversine_dist q (nth j C q)) js /\
        StronglySorted Rle ds /\
        (forall j d, j < length C -> ~ In j js -> In d ds ->
           (d <= haversine_dist q (nth j C q))%R) /\
        closest !! i = head js /\ closest_dist !! i = head ds.
Proof.
  intros HQ HC Hk. set (tree := mkBallTree C 15 haversine_dist).
  eexists _, _, _, _.
  split. { unfold BallTree_new. now rewrite (np_array_check C HC). }
  split. { apply (query_ok tree Q k HQ Hk). }
  split. { apply (get_nearest_ok Q C k HQ HC Hk). }
  split. { apply length_map. }
  split. { apply length_map. }
  intros i q Hq.
  set (nn := firstn (Z.to_nat k) (neighbors tree q)).
  assert (Hkn : Z.to_nat k <= length (data tree)) by (cbn [data tree]; lia).
  destruct (k_neighbors_spec tree q (Z.to_nat k) Hkn) as (Hlen & Hsort & Hnd & Hin).
  fold nn in Hlen, Hsort, Hnd, Hin. cbn [data dist_metric tree] in Hin.
  exists (map fst nn), (map snd nn).
  split. { now rewrite list_lookup_fmap, Hq. }
  split. { now rewrite list_lookup_fmap, Hq. }
  split. { rewrite length_map, Hlen. lia. }
  split. { exact Hnd. }
  split.
  { intros j Hj. apply in_map_iff in Hj. destruct Hj as ([d j'] & <- & Hj).
    now apply (Hin d j'). }
  split.
  { rewrite map_map. apply map_ext_in. intros [d j] Hj. cbn [fst snd].
    destruct (Hin d j Hj) as (_ & c & Hc & ->). now rewrite (nth_lookup_Some _ _ q _ Hc). }
  split. { now apply sorted_fst. }
  split.
  { intros j d Hj Hnot Hd.
    apply in_map_iff in Hd. destruct Hd as (a & <- & Ha).
    assert (Hall : In j (map snd (neighbors tree q))).
    { apply (Permutation_in _ (Permutation_sym (neighbors_perm tree q))), in_seq.
      cbn [data tree]. lia. }
    apply in_map_iff in Hall. destruct Hall as ([d' j'] & Ej & Hb). cbn [snd] in Ej. subst j'.
    destruct (neighbors_dist tree q d' j Hb) as (c & Hc & ->).
    cbn [data dist_metric tree] in Hc |- *. rewrite (nth_lookup_Some _ _ q _ Hc).
    rewrite <- (firstn_skipn (Z.to_nat k) (neighbors tree q)) in Hb.
    apply in_app_or in Hb. destruct Hb as [Hb|Hb].
    - exfalso. apply Hnot. apply in_map_iff. now exists (haversine_dist q c, j).
    - pose proof (sort_by_dist_sorted
                    (combine (map (dist_metric tree q) (data tree))
                             (seq 0 (length (data tree))))) as Hs.
      fold (neighbors tree q) in Hs.
      rewrite <- (firstn_skipn (Z.to_nat k) (neighbors tree q)) in Hs.
      exact (sorted_app_le dist_le _ _ Hs a (haversine_dist q c, j) Ha Hb). }
  assert (Hk1 : exists n, Z.to_nat k = S n) by (exists (Z.to_nat k - 1); lia).
  destruct Hk1 as (n & Hn).
  destruct (nearest_first C q n HC) as (Hne & Hd & Hj). fold tree in Hne, Hd, Hj.
  rewrite <- Hn in Hne, Hd, Hj. fold nn in Hne, Hd, Hj.
  split.
  - rewrite list_lookup_fmap, Hq. cbn. rewrite <- Hj. symmetry. apply head_nth0.
    intros E. apply Hne. now apply map_eq_nil in E.
  - rewrite list_lookup_fmap, Hq. cbn. rewrite <- Hd. symmetry. apply head_nth0.
    intros E. apply Hne. now apply map_eq_nil in E.
Qed.

Lemma C4_witness :
  exists closest closest_dist,
    get_nearest (np_array [radian_row (Point.mk 90 0)])
                (np_array (map radian_row (geometries five_stops))) 3
    = Ok (closest, closest_dist) /\ length closest = 1.
Proof.
  destruct (C4_k_nearest_and_what_is_returned
              [radian_row (Point.mk 90 0)] (map radian_row (geometries five_stops)) 3
              ltac:(discriminate) ltac:(discriminate) ltac:(simpl; lia))
    as (distances & indices & closest & closest_dist & _ & _ & Hg & Hlen & _).
  exists closest, closest_dist. split; [exact Hg|exact Hlen].
Defined.

(** C5.  The rows handed to [get_nearest] are, in the order of the
    points, the pairs of the two coordinates of each point converted by
    radians = degrees * PI / 180: whatever positions and distances
    [get_nearest] returns for these rows, the returned frame holds, row
    by row, the candidates at these positions, and, when distances are
    requested, its 'distance' column is the returned distance (in
    radians) multiplied by 6371000. *)
Theorem C5_radians_in_metres_out {A : Type} (s : gmap loc (list (Z * Row A)))
    (left right : loc) (L Rt : list (Z * Row A)) (closest : list nat) (dist : list R) :
  s !! left = Some L -> s !! right = Some Rt ->
  get_nearest
    (np_array (map (fun p => (radians (Point.x p), radians (Point.y p))) (geometries L)))
    (np_array (map (fun p => (radians (Point.x p), radians (Point.y p))) (geometries Rt))) 1
  = Ok (closest, dist) ->
  (forall degrees, radians degrees = (degrees * PI / 180)%R) /\
  exists res,
    result_of (nearest_neighbor left right true s) = Ok res /\
    map (fun r => distance (snd r)) res = map (fun d => Some (d * 6371000)%R) dist /\
    map (fun r => Some (geometry (snd r))) res = map (fun j => geometries Rt !! j) closest.
Proof.
  intros HL HR Hg. split; [reflexivity|].
  change (map (fun p => (radians (Point.x p), radians (Point.y p)))) with (map radian_row) in Hg.
  assert (HLne : L <> []).
  { intros ->. now rewrite get_nearest_no_queries in Hg. }
  assert (HRne : Rt <> []).
  { intros ->. now rewrite get_nearest_no_candidates in Hg. }
  rewrite get_nearest_ok in Hg.
  - injection Hg as <- <-.
    exists (matched_frame L Rt true).
    split; [now apply (result_of_run s left right L Rt true)|].
    assert (ERt : exists r0 Rt', Rt = r0 :: Rt') by (destruct Rt; [congruence|eauto]).
    destruct ERt as (r0 & Rt' & ERt).
    rewrite <- (map_map snd distance), <- (map_map snd (fun r => Some (geometry r))).
    rewrite (matched_frame_rows L Rt true r0 Rt' ERt), !map_map.
    split; [reflexivity|].
    apply map_ext. intros q. unfold matched_row. cbn [with_distance geometry].
    set (j := scan_index (map radian_row (geometries Rt)) (radian_row q)).
    assert (Hj : j < length Rt).
    { replace (length Rt) with (length (map radian_row (geometries Rt)))
        by (unfold geometries; now rewrite !length_map).
      apply scan_index_lt. now apply radian_rows_ne. }
    destruct (lookup_lt_is_Some_2 Rt j Hj) as [[lb r] Hr].
    unfold geometries. rewrite list_lookup_fmap, Hr.
    now rewrite (nth_lookup_Some (map snd Rt) j (snd r0) r) by (now rewrite list_lookup_fmap, Hr).
  - now apply radian_rows_ne.
  - now apply radian_rows_ne.
  - rewrite length_map. unfold geometries. rewrite length_map.
    destruct Rt; [congruence|simpl; lia].
Qed.

Lemma C5_witness :
  exists res,
    result_of (nearest_neighbor 1%positive 2%positive true (two_frames one_building two_stops))
    = Ok res /\
    map (fun r => distance (snd r)) res = [Some (0 * 6371000)%R] /\
    map (fun r => Some (geometry (snd r))) res = [Some (Point.mk 90 90)].
Proof.
  assert (Hg : get_nearest
                 (np_array (map (fun p => (radians (Point.x p), radians (Point.y p)))
                                (geometries one_building)))
                 (np_array (map (fun p => (radians (Point.x p), radians (Point.y p)))
                                (geometries two_stops))) 1
               = Ok ([0], [0%R])).
  { change (map (fun p => (radians (Point.x p), radians (Point.y p)))) with (map radian_row).
    rewrite get_nearest_ok; [|discriminate|discriminate|simpl; lia].
    change (geometries one_building) with [Point.mk 90 0]. cbn [map].
    now rewrite sample_scan_index, sample_scan_dist. }
  exact (proj2 (C5_radians_in_metres_out (two_frames one_building two_stops) 1%positive 2%positive
                  one_building two_stops [0] [0%R]
                  (two_frames_left _ _) (two_frames_right _ _) Hg)).
Defined.

(** C6 (counterexample to the claim as stated).  With an empty query
    frame and two candidates the call raises ValueError instead of
    returning an empty frame. *)
Lemma C6_empty_query_raises :
  result_of (nearest_neighbor 1%positive 2%positive true (two_frames [] two_stops))
  = Raise ValueError /\
  result_of (nearest_neighbor 1%positive 2%positive true (two_frames [] two_stops)) <> Ok [].
Proof.
  assert (H : result_of (nearest_neighbor 1%positive 2%positive true (two_frames [] two_stops))
              = Raise ValueError).
  { apply (result_of_no_queries _ _ _ two_stops); [apply two_frames_left|apply two_frames_right]. }
  split; [exact H|]. rewrite H. discriminate.
Qed.

(** C6 (amended).  For every non-empty candidate frame, a call with an
    empty query frame fails with ValueError and returns no frame: the
    empty list of query rows becomes a one-dimensional array, which the
    query of the index rejects.  No object of the store is changed. *)
Theorem C6_empty_query_fails {A : Type} (s : gmap loc (list (Z * Row A)))
    (left right : loc) (Rt : list (Z * Row A)) (rd : bool) :
  s !! left = Some [] -> s !! right = Some Rt -> Rt <> [] ->
  result_of (nearest_neighbor left right rd s) = Raise ValueError /\
  np_array (map radian_row (@geometries A [])) = Arr1 [] /\
  (forall tree k, query tree (Arr1 []) k = Raise ValueError) /\
  s ⊆ snd (nearest_neighbor left right rd s).
Proof.
  intros HL HR _. split; [now apply (result_of_no_queries s left right Rt)|].
  split; [reflexivity|]. split; [reflexivity|].
  now apply (nearest_neighbor_frame s left right [] Rt).
Qed.

Lemma C6_witness :
  result_of (nearest_neighbor 1%positive 2%positive false (two_frames [] two_stops))
  = Raise ValueError.
Proof.
  exact (proj1 (C6_empty_query_fails (two_frames [] two_stops) 1%positive 2%positive
                  two_stops false (two_frames_left _ _) (two_frames_right _ _)
                  ltac:(discriminate))).
Defined.

(** C7 (counterexample to the claim as stated).  Two neighbours requested
    from a single candidate: the failure is ValueError, not
    InvalidKError. *)
Lemma C7_k_above_candidates_raises_ValueError :
  get_nearest (np_array [radian_row (Point.mk 90 0)]) (np_array [radian_row (Point.mk 45 0)]) 2
  = Raise ValueError /\
  get_nearest (np_array [radian_row (Point.mk 90 0)]) (np_array [radian_row (Point.mk 45 0)]) 2
  <> Raise InvalidKError.
Proof.
  assert (H : get_nearest (np_array [radian_row (Point.mk 90 0)])
                (np_array [radian_row (Point.mk 45 0)]) 2 = Raise ValueError).
  { apply get_nearest_k_too_large. simpl. lia. }
  split; [exact H|]. rewrite H. discriminate.
Qed.

(** C7 (amended).  For every candidate set and every requested neighbour
    count above the number of candidates, the query of the index, and
    with it [get_nearest], fails with ValueError.  (The notebook checks
    no count itself; a count below 1 is not checked by the index
    either.) *)
Theorem C7_k_above_candidates_fails (Q C : list (R * R)) (k : Z) :
  (Z.of_nat (length C) < k)%Z ->
  get_nearest (np_array Q) (np_array C) k = Raise ValueError /\
  forall leaf X, query (mkBallTree C leaf haversine_dist) X k = Raise ValueError.
Proof.
  intros Hk. split; [now apply get_nearest_k_too_large|].
  intros leaf X. now apply query_k_too_large.
Qed.

Lemma C7_witness :
  get_nearest (np_array [radian_row (Point.mk 90 0)]) (np_array (map radian_row (geometries two_stops))) 3
  = Raise ValueError.
Proof.
  apply (C7_k_above_candidates_fails [radian_row (Point.mk 90 0)]
           (map radian_row (geometries two_stops)) 3).
  simpl. lia.
Defined.

(** C9.  After a call, whether it returns or fails, the query frame and
    the candidate frame hold what they held before, and so does every
    other object of the store; the frame a call returns is a new
    object. *)
Theorem C9_inputs_unchanged {A : Type} (s : gmap loc (list (Z * Row A)))
    (left right : loc) (L Rt : list (Z * Row A)) (rd : bool) :
  s !! left = Some L -> s !! right = Some Rt ->
  snd (nearest_neighbor left right rd s) !! left = Some L /\
  snd (nearest_neighbor left right rd s) !! right = Some Rt /\
  s ⊆ snd (nearest_neighbor left right rd s) /\
  (forall l', fst (nearest_neighbor left right rd s) = Ok l' -> s !! l' = None).
Proof.
  intros HL HR.
  pose proof (nearest_neighbor_frame s left right L Rt rd HL HR) as Hsub.
  split; [eapply lookup_weaken; eassumption|].
  split; [eapply lookup_weaken; eassumption|].
  split; [exact Hsub|].
  intros l' Hl'. destruct L as [|r L'] eqn:EL.
  { destruct (nearest_neighbor_no_queries s left right Rt rd HL HR) as (s' & E & _).
    rewrite E in Hl'. discriminate. }
  destruct Rt as [|r' Rt'] eqn:ER.
  { destruct (nearest_neighbor_no_candidates s left right _ rd HL HR) as (s' & E & _).
    rewrite E in Hl'. discriminate. }
  destruct (nearest_neighbor_run s left right _ _ rd HL HR ltac:(discriminate) ltac:(discriminate))
    as (l0 & s' & E & _ & Hnew & _).
  rewrite E in Hl'. cbn in Hl'. now injection Hl' as <-.
Qed.

Lemma C9_witness :
  snd (nearest_neighbor 1%positive 2%positive true (two_frames one_building two_stops))
    !! 1%positive = Some one_building /\
  snd (nearest_neighbor 1%positive 2%positive true (two_frames one_building two_stops))
    !! 2%positive = Some two_stops.
Proof.
  destruct (C9_inputs_unchanged (two_frames one_building two_stops) 1%positive 2%positive
              one_building two_stops true (two_frames_left _ _) (two_frames_right _ _))
    as (H1 & H2 & _).
  split; [exact H1|exact H2].
Defined.

(** C10.  The metric of the index reads the first column of a row as the
    latitude, and [nearest_neighbor] hands it rows with the longitude
    first.  So, for every row of the returned frame, the distance is
    6371000 times the haversine formula evaluated with the longitudes of
    the query point and of the matched candidate in the place of their
    latitudes and the latitudes in the place of the longitudes, and the
    matched candidate is the nearest one under that exchanged formula.
    The exchanged formula agrees with the great-circle distance when both
    points are on the equator, and differs from it elsewhere: for the
    points (90, 0) and (90, 90) it gives 0 where the great circle is
    PI/2. *)
Theorem C10_distance_exchanges_longitude_and_latitude {A : Type}
    (s : gmap loc (list (Z * Row A))) (left right : loc) (L Rt : list (Z * Row A)) :
  s !! left = Some L -> s !! right = Some Rt -> L <> [] -> Rt <> [] ->
  (forall lat1 lon1 lat2 lon2,
     haversine_dist (lat1, lon1) (lat2, lon2) = great_circle lat1 lon1 lat2 lon2) /\
  (exists res,
     result_of (nearest_neighbor left right true s) = Ok res /\
     forall i q, geometries L !! i = Some q ->
       exists r,
         res !! i = Some (Z.of_nat i, r) /\
         In (geometry r) (geometries Rt) /\
         distance r = Some (exchanged_dist q (geometry r) * 6371000)%R /\
         forall c, In c (geometries Rt) ->
           (exchanged_dist q (geometry r) <= exchanged_dist q c)%R) /\
  (forall p q, Point.y p = 0%R -> Point.y q = 0%R -> exchanged_dist p q = geo_dist p q) /\
  exchanged_dist (Point.mk 90 0) (Point.mk 90 90) = 0%R /\
  geo_dist (Point.mk 90 0) (Point.mk 90 90) = (PI / 2)%R /\
  exchanged_dist (Point.mk 90 0) (Point.mk 90 90) <> geo_dist (Point.mk 90 0) (Point.mk 90 90).
Proof.
  intros HL HR HLne HRne.
  split; [apply haversine_is_great_circle|].
  split.
  - exists (matched_frame L Rt true).
    split; [now apply (result_of_run s left right L Rt true)|].
    intros i q Hq.
    destruct (matched_frame_lookup L Rt true i q HRne Hq) as (j & r & _ & Hr & Hmin & Hres).
    exists (with_distance true r
              (haversine_dist (radian_row q) (radian_row (geometry r)) * 6371000)%R).
    split; [exact Hres|]. cbn [with_distance geometry distance].
    split.
    + unfold geometries. rewrite <- (map_map snd geometry). apply in_map.
      apply list_elem_of_In, list_elem_of_lookup. now exists j.
    + split; [now rewrite haversine_radian_rows|].
      intros c Hc. rewrite <- !haversine_radian_rows. now apply Hmin.
  - split; [apply exchanged_dist_equator|].
    split; [apply sample_exchanged_pole|]. split; [apply sample_geo_pole|].
    rewrite sample_exchanged_pole, sample_geo_pole. pose proof PI_RGT_0. lra.
Qed.

Lemma C10_witness :
  exists res,
    result_of (nearest_neighbor 1%positive 2%positive true (two_frames one_building two_stops))
    = Ok res /\
    forall i q, geometries one_building !! i = Some q ->
      exists r,
        res !! i = Some (Z.of_nat i, r) /\
        In (geometry r) (geometries two_stops) /\
        distance r = Some (exchanged_dist q (geometry r) * 6371000)%R /\
        forall c, In c (geometries two_stops) ->
          (exchanged_dist q (geometry r) <= exchanged_dist q c)%R.
Proof.
  exact (proj1 (proj2 (C10_distance_exchanges_longitude_and_latitude
                         (two_frames one_building two_stops) 1%positive 2%positive
                         one_building two_stops
                         (two_frames_left _ _) (two_frames_right _ _)
                         ltac:(discriminate) ltac:(discriminate)))).
Defined.

(** * Further properties of the notebook's functions *)

(** ** Rows of the returned frame, by membership *)

Lemma matched_frame_In {A : Type} (L Rt : list (Z * Row A)) (rd : bool) (lbl : Z) (row : Row A) :
  Rt <> [] -> In (lbl, row) (matched_frame L Rt rd) ->
  exists i q r,
    geometries L !! i = Some q /\ lbl = Z.of_nat i /\
    In r (map snd Rt) /\
    (forall c, In c (geometries Rt) ->
       (haversine_dist (radian_row q) (radian_row (geometry r))
        <= haversine_dist (radian_row q) (radian_row c))%R) /\
    row = with_distance rd r
            (haversine_dist (radian_row q) (radian_row (geometry r)) * 6371000)%R.
Proof.
  intros HRt Hin. apply list_elem_of_In, list_elem_of_lookup in Hin. destruct Hin as [i Hi].
  assert (Hlt : i < length (geometries L)).
  { apply lookup_lt_Some in Hi. rewrite matched_frame_length in Hi by exact HRt.
    unfold geometries. now rewrite length_map. }
  destruct (lookup_lt_is_Some_2 _ _ Hlt) as [q Hq].
  destruct (matched_frame_lookup L Rt rd i q HRt Hq) as (j & r & _ & Hr & Hmin & Hres).
  rewrite Hres in Hi. injection Hi as <- <-.
  exists i, q, r. repeat split; try assumption.
  apply list_elem_of_In, list_elem_of_lookup. now exists j.
Qed.

(** X5.  With a single candidate row every query row is matched to it:
    the returned frame has one row per query row, labelled 0, 1, 2, ...,
    each the candidate row, with the distance from the query point when
    distances are requested. *)
Theorem X5_single_candidate {A : Type} (s : gmap loc (list (Z * Row A)))
    (left right : loc) (L : list (Z * Row A)) (lbl : Z) (r : Row A) (rd : bool) :
  s !! left = Some L -> s !! right = Some [(lbl, r)] -> L <> [] ->
  exists res,
    result_of (nearest_neighbor left right rd s) = Ok res /\
    length res = length L /\
    forall i q, geometries L !! i = Some q ->
      res !! i
      = Some (Z.of_nat i,
              if rd
              then mkRow (geometry r) (attrs r)
                     (Some (haversine_dist (radian_row q) (radian_row (geometry r)) * 6371000)%R)
              else r).
Proof.
  intros HL HR HLne. exists (matched_frame L [(lbl, r)] rd).
  split; [apply (result_of_run s left right L [(lbl, r)] rd); auto; discriminate|].
  split; [apply matched_frame_length; discriminate|].
  intros i q Hq.
  destruct (matched_frame_lookup L [(lbl, r)] rd i q ltac:(discriminate) Hq)
    as (j & r' & _ & Hr & _ & ->).
  destruct j as [|j]; [|destruct j; discriminate].
  cbn in Hr. injection Hr as <-. reflexivity.
Qed.

Lemma X5_witness :
  exists res,
    result_of (nearest_neighbor 2%positive 1%positive false (two_frames one_building five_stops))
    = Ok res /\
    length res = 5 /\
    forall i q, geometries five_stops !! i = Some q ->
      res !! i = Some (Z.of_nat i, sample_row 90 0 "building"%string).
Proof.
  exact (X5_single_candidate (two_frames one_building five_stops) 2%positive 1%positive
           five_stops 7%Z (sample_row 90 0 "building"%string) false
           (two_frames_right _ _) (two_frames_left _ _) ltac:(discriminate)).
Defined.

Lemma matched_frame_ext {A : Type} (L L' Rt Rt' : list (Z * Row A)) (rd : bool) :
  geometries L = geometries L' -> map snd Rt = map snd Rt' ->
  matched_frame L Rt rd = matched_frame L' Rt' rd.
Proof.
  intros HL HR.
  assert (Hlen : length L = length L').
  { rewrite <- (length_map (fun r => geometry (snd r)) L),
            <- (length_map (fun r => geometry (snd r)) L').
    fold (geometries L) (geometries L'). now rewrite HL. }
  assert (HG : geometries Rt = geometries Rt').
  { unfold geometries. rewrite <- !(map_map snd geometry). now rewrite HR. }
  destruct Rt as [|r0 Rt], Rt' as [|r0' Rt']; try discriminate; [reflexivity|].
  unfold matched_frame, matched_row. rewrite Hlen, HL, HG, HR.
  cbn [map] in HR. injection HR as -> _. reflexivity.
Qed.

(** X6.  The index labels of the two frames, whatever they are
    (repeated, negative, out of sequence), and the columns of the query
    frame other than its geometry have no influence on the outcome: two
    calls whose query frames hold the same points in the same order and
    whose candidate frames hold the same rows in the same order return
    the same frame or fail alike. *)
Theorem X6_labels_have_no_influence {A : Type} (s s' : gmap loc (list (Z * Row A)))
    (left right left' right' : loc) (L L' Rt Rt' : list (Z * Row A)) (rd : bool) :
  s !! left = Some L -> s !! right = Some Rt ->
  s' !! left' = Some L' -> s' !! right' = Some Rt' ->
  geometries L = geometries L' -> map snd Rt = map snd Rt' ->
  result_of (nearest_neighbor left' right' rd s') = result_of (nearest_neighbor left right rd s).
Proof.
  intros HL HR HL' HR' HG HS.
  rewrite (result_of_cases s left right L Rt rd HL HR).
  rewrite (result_of_cases s' left' right' L' Rt' rd HL' HR').
  rewrite (matched_frame_ext L L' Rt Rt' rd HG HS).
  destruct L, L', Rt, Rt'; try discriminate; reflexivity.
Qed.

Lemma X6_witness :
  result_of (nearest_neighbor 1%positive 2%positive true
               (two_frames [((-4)%Z, sample_row 90 0 "other"%string)]
                           [(5%Z, sample_row 90 90 "pole"%string);
                            (5%Z, sample_row 45 0 "equator"%string)]))
  = result_of (nearest_neighbor 1%positive 2%positive true (two_frames one_building two_stops)).
Proof.
  apply (X6_labels_have_no_influence
           (two_frames one_building two_stops)
           (two_frames [((-4)%Z, sample_row 90 0 "other"%string)]
                       [(5%Z, sample_row 90 90 "pole"%string);
                        (5%Z, sample_row 45 0 "equator"%string)])
           1%positive 2%positive 1%positive 2%positive
           one_building [((-4)%Z, sample_row 90 0 "other"%string)]
           two_stops [(5%Z, sample_row 90 90 "pole"%string);
                      (5%Z, sample_row 45 0 "equator"%string)] true
           (two_frames_left _ _) (two_frames_right _ _)
           (two_frames_left _ _) (two_frames_right _ _));
    reflexivity.
Defined.

Lemma map_combine_ext {X Y V W : Type} (g : V * W -> Y) (f1 f2 : X -> W)
    (labels : list V) (qs : list X) :
  (forall lbl q, g (lbl, f1 q) = g (lbl, f2 q)) ->
  map g (combine labels (map f1 qs)) = map g (combine labels (map f2 qs)).
Proof.
  intros H. revert labels. induction qs as [|q qs IH]; intros [|lbl labels]; simpl;
    try reflexivity.
  now rewrite H, IH.
Qed.

(** X7.  [return_dist] changes the 'distance' column and nothing else.
    Without it every returned row is a row of the candidate frame as it
    stands, attributes included (and its own 'distance' value, if the
    candidate frame had that column).  With it the rows have the same
    labels, geometries and attributes, and every row has a distance. *)
Theorem X7_return_dist_only_sets_distance {A : Type} (s : gmap loc (list (Z * Row A)))
    (left right : loc) (L Rt : list (Z * Row A)) :
  s !! left = Some L -> s !! right = Some Rt -> L <> [] -> Rt <> [] ->
  exists with_dist without_dist,
    result_of (nearest_neighbor left right true s) = Ok with_dist /\
    result_of (nearest_neighbor left right false s) = Ok without_dist /\
    (forall lbl r, In (lbl, r) without_dist -> In r (map snd Rt)) /\
    map (fun row => (fst row, geometry (snd row), attrs (snd row))) with_dist
    = map (fun row => (fst row, geometry (snd row), attrs (snd row))) without_dist /\
    (forall lbl r, In (lbl, r) with_dist -> distance r <> None).
Proof.
  intros HL HR HLne HRne.
  exists (matched_frame L Rt true), (matched_frame L Rt false).
  split; [now apply (result_of_run s left right L Rt true)|].
  split; [now apply (result_of_run s left right L Rt false)|].
  split; [|split].
  - intros lbl r Hin.
    now destruct (matched_frame_In L Rt false lbl r HRne Hin) as (i & q & r' & _ & _ & Hr & _ & ->).
  - assert (ERt : exists r0 Rt', Rt = r0 :: Rt') by (destruct Rt; [congruence|eauto]).
    destruct ERt as (r0 & Rt' & ERt).
    rewrite !(matched_frame_cons L Rt r0 Rt' _ ERt).
    apply map_combine_ext. intros lbl q. reflexivity.
  - intros lbl r Hin.
    destruct (matched_frame_In L Rt true lbl r HRne Hin) as (i & q & r' & _ & _ & _ & _ & ->).
    discriminate.
Qed.

Lemma X7_witness :
  exists with_dist without_dist,
    result_of (nearest_neighbor 1%positive 2%positive true (two_frames one_building two_stops))
    = Ok with_dist /\
    result_of (nearest_neighbor 1%positive 2%positive false (two_frames one_building two_stops))
    = Ok without_dist /\
    forall lbl r, In (lbl, r) without_dist -> In r (map snd two_stops).
Proof.
  destruct (X7_return_dist_only_sets_distance (two_frames one_building two_stops)
              1%positive 2%positive one_building two_stops
              (two_frames_left _ _) (two_frames_right _ _)
              ltac:(discriminate) ltac:(discriminate))
    as (wd & wo & H1 & H2 & H3 & _).
  exists wd, wo. split; [exact H1|]. split; [exact H2|exact H3].
Defined.

(** ** Two points on the same parallel *)

Lemma asin_lt (x y : R) : (-1 <= x)%R -> (x < y)%R -> (y <= 1)%R -> (asin x < asin y)%R.
Proof.
  intros Hx Hxy Hy. pose proof (asin_bound x). pose proof (asin_bound y).
  apply sin_increasing_0; try lra. rewrite !sin_asin by lra. exact Hxy.
Qed.

Lemma great_circle_same_lat_lt (lat lon1 lon2 : R) :
  (Rabs (cos lat) < 1)%R -> (0 < lon1 - lon2 <= PI)%R ->
  (great_circle lat lon1 lat lon2 < lon1 - lon2)%R.
Proof.
  intros Hc Hd. unfold great_circle.
  replace ((lat - lat) / 2)%R with 0%R by lra. rewrite sin_0.
  set (sn := sin ((lon1 - lon2) / 2)).
  assert (Hsn : (0 < sn)%R) by (apply sin_gt_0; lra).
  assert (Hsn1 : (sn <= 1)%R) by apply SIN_bound.
  pose proof (Rabs_pos (cos lat)) as Habs.
  replace (0 * 0 + cos lat * cos lat * (sn * sn))%R
    with ((Rabs (cos lat) * sn) * (Rabs (cos lat) * sn))%R.
  2:{ replace (cos lat * cos lat)%R with (Rabs (cos lat) * Rabs (cos lat))%R; [ring|].
      rewrite <- Rabs_mult. apply Rabs_pos_eq. nra. }
  rewrite sqrt_square by nra.
  assert (Hlt : (asin (Rabs (cos lat) * sn) < asin sn)%R) by (apply asin_lt; nra).
  unfold sn in Hlt at 2. rewrite asin_sin in Hlt by lra. lra.
Qed.

Lemma radians_minus (a b : R) : (radians a - radians b)%R = radians (a - b).
Proof. unfold radians. field. Qed.

Lemma radians_range (d : R) : (0 <= d <= 180)%R -> (0 <= radians d <= PI)%R.
Proof. intros H. pose proof PI_RGT_0. unfold radians. split; nra. Qed.

Lemma radians_pos (d : R) : (0 < d)%R -> (0 < radians d)%R.
Proof. intros H. pose proof PI_RGT_0. unfold radians. nra. Qed.

(** X9.  For a query point and a single candidate on the same parallel
    (equal y), at most 180 degrees of longitude apart, the distance
    returned is the difference of the longitudes, as an angle in
    radians, times 6371000, whatever the latitude; away from the equator
    (|cos latitude| < 1) this is strictly more than the great-circle
    distance between the two points. *)
Theorem X9_same_parallel {A : Type} (s : gmap loc (list (Z * Row A)))
    (left right : loc) (lq lc : Z) (rq rc : Row A) :
  s !! left = Some [(lq, rq)] -> s !! right = Some [(lc, rc)] ->
  Point.y (geometry rq) = Point.y (geometry rc) ->
  (0 <= Point.x (geometry rq) - Point.x (geometry rc) <= 180)%R ->
  result_of (nearest_neighbor left right true s)
  = Ok [(0%Z, mkRow (geometry rc) (attrs rc)
                (Some (radians (Point.x (geometry rq) - Point.x (geometry rc)) * 6371000)%R))] /\
  ((Rabs (cos (radians (Point.y (geometry rq)))) < 1)%R ->
   (0 < Point.x (geometry rq) - Point.x (geometry rc))%R ->
   (geo_dist (geometry rq) (geometry rc) * 6371000
    < radians (Point.x (geometry rq) - Point.x (geometry rc)) * 6371000)%R).
Proof.
  intros HL HR Hy Hx. pose proof PI_RGT_0 as HPI. split.
  - rewrite (result_of_run s left right [(lq, rq)] [(lc, rc)] true HL HR) by discriminate.
    unfold matched_frame, matched_row, scan_dist, scan_index.
    cbn [geometries map snd length seq combine brute_force_scan scan_from nth with_distance].
    rewrite haversine_radian_rows. unfold exchanged_dist. rewrite Hy.
    rewrite great_circle_same_lon by (rewrite radians_minus; now apply radians_range).
    now rewrite radians_minus.
  - intros Hc Hpos. unfold geo_dist. rewrite <- Hy.
    assert (Hlt : (great_circle (radians (Point.y (geometry rq)))
                     (radians (Point.x (geometry rq)))
                     (radians (Point.y (geometry rq)))
                     (radians (Point.x (geometry rc)))
                   < radians (Point.x (geometry rq)) - radians (Point.x (geometry rc)))%R).
    { apply great_circle_same_lat_lt; [exact Hc|]. rewrite radians_minus.
      split; [now apply radians_pos|now apply radians_range]. }
    rewrite radians_minus in Hlt. lra.
Qed.

Lemma X9_witness :
  result_of (nearest_neighbor 1%positive 2%positive true
               (two_frames [(0%Z, sample_row 26 60 "east"%string)]
                           [(0%Z, sample_row 25 60 "west"%string)]))
  = Ok [(0%Z, mkRow (Point.mk 25 60) "west"%string (Some (radians (26 - 25) * 6371000)%R))].
Proof.
  refine (proj1 (X9_same_parallel
                   (two_frames [(0%Z, sample_row 26 60 "east"%string)]
                               [(0%Z, sample_row 25 60 "west"%string)])
                   1%positive 2%positive 0%Z 0%Z
                   (sample_row 26 60 "east"%string) (sample_row 25 60 "west"%string)
                   (two_frames_left _ _) (two_frames_right _ _) eq_refl _)).
  cbn [sample_row geometry Point.x]. lra.
Defined.

(** ** read_gdf_from_zip *)

Lemma zip_read_absent (z : ZipFile) (name : string) :
  ~ In name (namelist z) -> zip_read z name = Raise KeyError.
Proof.
  induction z as [|[n c] z IH]; simpl; intros Hn; [reflexivity|].
  rewrite IH by tauto.
  destruct (String.eqb_spec n name) as [E|_]; [tauto|reflexivity].
Qed.

(** X10.  [read_gdf_from_zip] reads one member of the archive, the
    first: when no later member repeats its name, the outcome is that of
    the reader on the bytes of the first member, frame or failure,
    whatever the other members hold; an archive without members raises
    IndexError before anything is read. *)
Theorem X10_zip_first_member_only {A : Type}
    (read_file : list Byte.byte -> outcome (list (Z * Row A)))
    (name : string) (content : list Byte.byte) (rest : ZipFile) :
  ~ In name (namelist rest) ->
  read_gdf_from_zip read_file ((name, content) :: rest) = read_file content /\
  read_gdf_from_zip read_file [] = Raise IndexError.
Proof.
  intros Hn. split; [|reflexivity].
  unfold read_gdf_from_zip. cbn [namelist map fst first_axis obind zip_read snd].
  fold (namelist rest). rewrite (zip_read_absent rest name Hn), String.eqb_refl.
  reflexivity.
Qed.

Lemma X10_witness :
  read_gdf_from_zip (fun _ => Ok one_building)
    [("buildings.gpkg"%string, [Byte.x50; Byte.x4b]); ("readme.txt"%string, [])]
  = Ok one_building.
Proof.
  refine (proj1 (X10_zip_first_member_only (fun _ => Ok one_building)
                   "buildings.gpkg"%string [Byte.x50; Byte.x4b]
                   [("readme.txt"%string, [])] _)).
  simpl. intros [H|[]]. discriminate.
Defined.
